(** * codemd: the file selection engine of [scanner.py]

    A shallow embedding of [CodeScanner] (src/codemd/scanner.py) and of the
    parts of Python's [str], [pathlib], [open] and of the [pathspec] package
    that the scanner calls, followed by the properties of the scanner.

    Conventions.
    - A Python [str] is represented by the Rocq [string] of its UTF-8 bytes.
      Every [str] operation the scanner uses ([in], [startswith], [endswith],
      [rfind], [lstrip], [replace], [split], [join], [<]) has the same result
      on the UTF-8 bytes as on the code points.
    - A [pathlib] path is represented by its [parts] tuple.
    - The file system is a tree without symbolic links; the order of a
      directory's entry list is the order in which the operating system
      enumerates that directory. *)

From Stdlib Require Import Ascii String List Bool Arith Lia Permutation.
From stdpp Require Import base decidable option list strings sorting gmap.

Import ListNotations.
Set Warnings "-register-all".
Local Open Scope string_scope.
Local Open Scope list_scope.

(** ** Python [str] *)

Module Str.

Definition LF : ascii := "010"%char.
Definition CR : ascii := "013"%char.
Definition lf : string := String LF "".

(** [s.startswith(p)] *)
Fixpoint startswith (p s : string) : bool :=
  match p, s with
  | "", _ => true
  | String a p', String b s' => if Ascii.eqb a b then startswith p' s' else false
  | String _ _, "" => false
  end.

(** [s.endswith(p)] *)
Fixpoint endswith (p s : string) : bool :=
  if String.eqb p s then true
  else match s with
       | "" => false
       | String _ s' => endswith p s'
       end.

(** [p in s] *)
Fixpoint contains (p s : string) : bool :=
  if startswith p s then true
  else match s with
       | "" => false
       | String _ s' => contains p s'
       end.

(** [s.rfind(c)] for a one-character [c]; [None] stands for [-1]. *)
Fixpoint rfind (c : ascii) (s : string) : option nat :=
  match s with
  | "" => None
  | String a s' =>
      match rfind c s' with
      | Some i => Some (S i)
      | None => if Ascii.eqb a c then Some 0 else None
      end
  end.

(** [s[n:]] *)
Fixpoint drop (n : nat) (s : string) : string :=
  match n, s with
  | 0, _ => s
  | S n', String _ s' => drop n' s'
  | S _, "" => ""
  end.

(** [s.lstrip(c)] for a one-character [c] *)
Fixpoint lstrip (c : ascii) (s : string) : string :=
  match s with
  | String a s' => if Ascii.eqb a c then lstrip c s' else s
  | "" => ""
  end.

(** [s.replace(c, r)] for a one-character [c] *)
Fixpoint replace (c : ascii) (r : string) (s : string) : string :=
  match s with
  | "" => ""
  | String a s' =>
      if Ascii.eqb a c then r +:+ replace c r s' else String a (replace c r s')
  end.

(** [s.split(c)] for a one-character separator [c] *)
Fixpoint split (c : ascii) (s : string) : list string :=
  match s with
  | "" => [""]
  | String a s' =>
      if Ascii.eqb a c then "" :: split c s'
      else match split c s' with
           | h :: t => String a h :: t
           | [] => [String a ""]
           end
  end.

(** [sep.join(l)] *)
Definition join (sep : string) (l : list string) : string := String.concat sep l.

(** [s * n] *)
Fixpoint repeat (s : string) (n : nat) : string :=
  match n with
  | 0 => ""
  | S n' => s +:+ repeat s n'
  end.

(** [s < t] and [s <= t]: comparison by code point, which on UTF-8 is the
    comparison by byte. *)
Definition leb (s t : string) : bool := String.leb s t.

(** The ASCII characters of [str.isspace]. *)
Definition is_space (a : ascii) : bool :=
  let n := nat_of_ascii a in
  (((9 <=? n) && (n <=? 13)) || ((28 <=? n) && (n <=? 32)))%nat.

Definition is_ascii (a : ascii) : bool := (nat_of_ascii a <? 128)%nat.

Fixpoint all_ascii (s : string) : bool :=
  match s with
  | "" => true
  | String a s' => is_ascii a && all_ascii s'
  end.

Fixpoint lstrip_space (s : string) : string :=
  match s with
  | String a s' => if is_space a then lstrip_space s' else s
  | "" => ""
  end.

(** [s.rstrip()]: the empty result of the tail tells that only white space
    follows. *)
Fixpoint rstrip_space (s : string) : string :=
  match s with
  | "" => ""
  | String a s' =>
      match rstrip_space s' with
      | "" => if is_space a then "" else String a ""
      | t => String a t
      end
  end.

(** [s.strip()], on a string of ASCII characters *)
Definition strip (s : string) : string := rstrip_space (lstrip_space s).

End Str.

(** ** [pathlib] paths (POSIX flavour) *)

Module Pathlib.

(** A path is its [parts] tuple: the root ["/"] (or ["//"]) comes first in
    an absolute path, and [Path('.')] has no part. *)
Definition Path : Type := list string.

Definition is_root (x : string) : bool := String.eqb x "/" || String.eqb x "//".

Definition is_absolute (p : Path) : bool :=
  match p with
  | r :: _ => is_root r
  | [] => false
  end.

Fixpoint count_leading (c : ascii) (s : string) : nat :=
  match s with
  | String a s' => if Ascii.eqb a c then S (count_leading c s') else 0
  | "" => 0
  end.

(** [Path(s)]: [splitroot] keeps two leading slashes, and one slash for
    any other number of them; empty components and ["."] are dropped. *)
Definition of_string (s : string) : Path :=
  let rel := List.filter (fun x => negb (String.eqb x "") && negb (String.eqb x "."))
                    (Str.split "/" s) in
  match count_leading "/" s with
  | 0 => rel
  | 2 => "//" :: rel
  | _ => "/" :: rel
  end.

(** [str(p)] *)
Definition str (p : Path) : string :=
  match p with
  | [] => "."
  | r :: rest => if is_root r then r +:+ Str.join "/" rest else Str.join "/" p
  end.

(** [p / name], as [iterdir] and [glob] build a child path *)
Definition child (p : Path) (name : string) : Path := p ++ [name].

(** [p.name] *)
Definition name (p : Path) : string :=
  match p with
  | [] => ""
  | r :: rest => if is_root r then List.last rest "" else List.last p ""
  end.

(** [p.suffix]: the part of the name from its last dot on, when that dot is
    neither the first nor the last character of the name. *)
Definition suffix (p : Path) : string :=
  let n := name p in
  match Str.rfind "." n with
  | Some i => if (0 <? i)%nat && (i <? String.length n - 1)%nat then Str.drop i n else ""
  | None => ""
  end.

Fixpoint is_prefix (b p : list string) : bool :=
  match b, p with
  | [], _ => true
  | x :: b', y :: p' => String.eqb x y && is_prefix b' p'
  | _ :: _, [] => false
  end.

(** [p.relative_to(base)]; [None] stands for the [ValueError] raised when
    [p] does not start with [base]. *)
Definition relative_to (p base : Path) : option Path :=
  match base with
  | [] => if is_absolute p then None else Some p
  | _ => if is_prefix base p then Some (skipn (length base) p) else None
  end.

(** [p <= q]: the [parts] are compared as lists of strings. *)
Fixpoint leb (p q : Path) : bool :=
  match p, q with
  | [], _ => true
  | _ :: _, [] => false
  | x :: p', y :: q' =>
      if String.eqb x y then leb p' q' else Str.leb x y
  end.

Definition le (p q : Path) : Prop := leb p q = true.

#[global] Instance le_dec : RelDecision le.
Proof. intros p q. unfold le. apply _. Defined.

(** [sorted(l)] on a list of paths.  The order is total and antisymmetric,
    so every sorting algorithm returns this list ([sorted_unique] below). *)
Definition sorted (l : list Path) : list Path := merge_sort le l.

End Pathlib.

Abbreviation Path := Pathlib.Path.

(** ** The file system *)

Module FS.

(** A regular file holds bytes and may be unreadable; a directory holds
    its entries in enumeration order and may refuse to be listed.

    The file systems described are those without symbolic links, in which
    a directory that can be listed can also be searched, and in which a
    lookup fails only because a name is missing or a component is not a
    directory.  On such a file system [is_dir] and [is_file] return without
    raising, and what [is_dir] says of an entry is what [rglob] descends
    into. *)
Inductive node : Type :=
| File (readable : bool) (data : string)
| Dir (listable : bool) (entries : list (string * node)).

(** The world: the tree below ["/"] and the working directory of the
    process (an absolute path). *)
Record world : Type := World { root : node; cwd : Path }.

Fixpoint assoc (x : string) (es : list (string * node)) : option node :=
  match es with
  | [] => None
  | (k, n) :: es' => if String.eqb k x then Some n else assoc x es'
  end.

(** Path resolution by the kernel, one component at a time; [stack] holds
    the directories from the parent of [cur] up to the root.  A component
    ["."] stays where it is, and like any component it needs a directory. *)
Fixpoint walk (stack : list node) (cur : node) (parts : list string)
  : option (list node * node) :=
  match parts with
  | [] => Some (stack, cur)
  | x :: rest =>
      match cur with
      | File _ _ => None
      | Dir _ es =>
          if String.eqb x "." then walk stack cur rest
          else if String.eqb x ".." then
            match stack with
            | [] => walk [] cur rest
            | up :: stack' => walk stack' up rest
            end
          else
            match assoc x es with
            | Some c => walk (cur :: stack) c rest
            | None => None
            end
      end
  end.

Definition absolute (w : world) (p : Path) : Path :=
  if Pathlib.is_absolute p then p else cwd w ++ p.

(** [os.stat(p)] *)
Definition stat (w : world) (p : Path) : option node :=
  match absolute w p with
  | _ :: rest => snd <$> walk [] (root w) rest
  | [] => None
  end.

(** [p.exists()], [p.is_dir()], [p.is_file()]: false when the lookup
    fails for a missing name or a component that is not a directory, the
    only failures of the file systems described here. *)
Definition path_exists (w : world) (p : Path) : bool :=
  match stat w p with Some _ => true | None => false end.

Definition is_dir (w : world) (p : Path) : bool :=
  match stat w p with Some (Dir _ _) => true | _ => false end.

Definition is_file (w : world) (p : Path) : bool :=
  match stat w p with Some (File _ _) => true | _ => false end.

Definition node_is_dir (n : node) : bool :=
  match n with Dir _ _ => true | File _ _ => false end.

(** [p.resolve()]: without symbolic links, the absolute path with its
    [".."] components folded; the root of the result is ["/"], also for a
    path that starts with two slashes. *)
Definition fold_dotdot (parts : list string) : list string :=
  fold_left (fun acc x => if String.eqb x ".." then removelast acc else acc ++ [x])
            parts [].

Definition resolve (w : world) (p : Path) : Path :=
  match absolute w p with
  | _ :: rest => "/" :: fold_dotdot rest
  | [] => []
  end.

(** *** Reading a file as text *)

Definition between (lo hi : nat) (a : ascii) : bool :=
  let n := nat_of_ascii a in ((lo <=? n) && (n <=? hi))%nat.

(** The strict UTF-8 decoder of Python: no overlong form, no surrogate,
    nothing above U+10FFFF. *)
Fixpoint utf8_valid (s : string) : bool :=
  match s with
  | "" => true
  | String a s1 =>
      if between 0 127 a then utf8_valid s1
      else if between 194 223 a then
        match s1 with
        | String b s2 => between 128 191 b && utf8_valid s2
        | _ => false
        end
      else if between 224 239 a then
        match s1 with
        | String b (String c s3) =>
            (if between 224 224 a then between 160 191 b
             else if between 237 237 a then between 128 159 b
             else between 128 191 b)
            && between 128 191 c && utf8_valid s3
        | _ => false
        end
      else if between 240 244 a then
        match s1 with
        | String b (String c (String d s4)) =>
            (if between 240 240 a then between 144 191 b
             else if between 244 244 a then between 128 143 b
             else between 128 191 b)
            && between 128 191 c && between 128 191 d && utf8_valid s4
        | _ => false
        end
      else false
  end.

(** Universal newlines, the default of a file opened in text mode:
    ["\r\n"] and a lone ["\r"] are read as ["\n"]. *)
Fixpoint universal_newlines (s : string) : string :=
  match s with
  | "" => ""
  | String a s' =>
      if Ascii.eqb a Str.CR then
        match s' with
        | String b s'' =>
            if Ascii.eqb b Str.LF then String Str.LF (universal_newlines s'')
            else String Str.LF (universal_newlines s')
        | "" => String Str.LF ""
        end
      else String a (universal_newlines s')
  end.

(** [open(p, 'r', encoding='utf-8').read()]; [None] stands for any of the
    exceptions it raises (no such file, a directory, no permission, bytes
    that are not UTF-8), which the scanner catches alike. *)
Definition read_text (w : world) (p : Path) : option string :=
  match stat w p with
  | Some (File true data) =>
      if utf8_valid data then Some (universal_newlines data) else None
  | _ => None
  end.

(** [f.readlines()] on the text read: the lines, each with its ["\n"]. *)
Fixpoint lines (s : string) : list string :=
  match s with
  | "" => []
  | String a s' =>
      if Ascii.eqb a Str.LF then Str.lf :: lines s'
      else match lines s' with
           | h :: t => String a h :: t
           | [] => [String a ""]
           end
  end.

Definition readlines (w : world) (p : Path) : option (list string) :=
  lines <$> read_text w p.

(** The components of a path string as the kernel resolves it, which is
    what [open] does with a string: empty components are dropped, ["."] is
    kept, and a run of leading slashes is the root. *)
Definition kernel_path (s : string) : Path :=
  let parts := List.filter (fun x => negb (String.eqb x "")) (Str.split "/" s) in
  match Pathlib.count_leading "/" s with
  | 0 => parts
  | _ => "/" :: parts
  end.

(** *** Enumerating directories *)

(** The entries of the directory [n] found at [p], as [p.iterdir()] and
    the [*] of [glob] yield them. *)
Definition children (p : Path) (es : list (string * node)) : list Path :=
  map (fun e => Pathlib.child p (fst e)) es.

(** [p.glob("*")]: nothing for a file or a directory that cannot be
    listed. *)
Definition glob_star (p : Path) (n : node) : list Path :=
  match n with
  | Dir true es => children p es
  | _ => []
  end.

(** [p.rglob("*")]: the starting points are [p] and, in pre-order, its
    sub-directories; each yields its entries.  A directory that cannot be
    listed yields nothing. *)
Fixpoint rglob_star (p : Path) (n : node) : list Path :=
  match n with
  | Dir true es =>
      children p es ++
      (fix below (es : list (string * node)) : list Path :=
         match es with
         | [] => []
         | (k, c) :: es' => rglob_star (Pathlib.child p k) c ++ below es'
         end) es
  | _ => []
  end.

End FS.

(** ** Exceptions *)

(** The exceptions that leave the functions modelled here.
    [OutsideFragment] is not a Python exception: it marks an ignore pattern
    whose syntax (a bracket expression, a backslash escape, a character
    that is not ASCII) the model of [pathspec] below does not cover. *)
Inductive exn : Type :=
| ValueError (msg : string)
| TypeError
| NotADirectoryError
| GitWildMatchPatternError
| OutsideFragment.

Inductive result (A : Type) : Type :=
| Ok (a : A)
| Raise (e : exn).
Arguments Ok {A} a.
Arguments Raise {A} e.

#[global] Instance result_bind : MBind result := fun A B f m =>
  match m with
  | Ok a => f a
  | Raise e => Raise e
  end.

Fixpoint mapM {A B : Type} (f : A -> result B) (l : list A) : result (list B) :=
  match l with
  | [] => Ok []
  | x :: l' => y ← f x; ys ← mapM f l'; Ok (y :: ys)
  end.

(** ** Regular expressions, as [re.match] decides them *)

Module Re.

(** Regular expressions over bytes; [Rng lo hi] is one byte of that
    range. *)
Inductive regex : Type :=
| Void
| Eps
| Rng (lo hi : nat)
| Cat (r1 r2 : regex)
| Alt (r1 r2 : regex)
| Star (r : regex).

Definition opt (r : regex) : regex := Alt Eps r.
Definition plus (r : regex) : regex := Cat r (Star r).
Definition chr (a : ascii) : regex := Rng (nat_of_ascii a) (nat_of_ascii a).

Fixpoint seq (rs : list regex) : regex :=
  match rs with
  | [] => Eps
  | r :: rs' => Cat r (seq rs')
  end.

(** One code point above U+007F, in UTF-8. *)
Definition cont : regex := Rng 128 191.
Definition multibyte : regex :=
  Alt (Cat (Rng 194 223) cont)
      (Alt (Cat (Rng 224 239) (Cat cont cont))
           (Cat (Rng 240 244) (Cat cont (Cat cont cont)))).

(** [[^/]]: one character other than the slash *)
Definition not_slash : regex := Alt (Rng 0 46) (Alt (Rng 48 127) multibyte).
(** [.]: one character other than the newline *)
Definition dot : regex := Alt (Rng 0 9) (Alt (Rng 11 127) multibyte).
Definition slash : regex := chr "/".

Fixpoint nullable (r : regex) : bool :=
  match r with
  | Void => false
  | Eps => true
  | Rng _ _ => false
  | Cat r1 r2 => nullable r1 && nullable r2
  | Alt r1 r2 => nullable r1 || nullable r2
  | Star _ => true
  end.

Definition mk_cat (r1 r2 : regex) : regex :=
  match r1 with
  | Void => Void
  | Eps => r2
  | _ => Cat r1 r2
  end.

Definition mk_alt (r1 r2 : regex) : regex :=
  match r1, r2 with
  | Void, _ => r2
  | _, Void => r1
  | _, _ => Alt r1 r2
  end.

(** The derivative of [r] by the byte [a]. *)
Fixpoint deriv (a : ascii) (r : regex) : regex :=
  match r with
  | Void => Void
  | Eps => Void
  | Rng lo hi => if FS.between lo hi a then Eps else Void
  | Cat r1 r2 =>
      if nullable r1 then mk_alt (mk_cat (deriv a r1) r2) (deriv a r2)
      else mk_cat (deriv a r1) r2
  | Alt r1 r2 => mk_alt (deriv a r1) (deriv a r2)
  | Star r1 => mk_cat (deriv a r1) (Star r1)
  end.

(** [re.match('^' + r + '$', s) is not None]: [$] holds at the end of the
    string and also before a newline that ends it. *)
Fixpoint matches (r : regex) (s : string) : bool :=
  match s with
  | "" => nullable r
  | String a s' =>
      (Ascii.eqb a Str.LF && String.eqb s' "" && nullable r) || matches (deriv a r) s'
  end.

End Re.

(** ** The [pathspec] package: [PathSpec] with the [gitwildmatch] patterns

    The scanner builds its matcher with
    [pathspec.PathSpec.from_lines('gitwildmatch', patterns)] (line 48) and
    asks it [match_file] (lines 55, 58, 89, 92).  The package is a
    dependency of the repository; what follows transcribes, from
    pathspec 0.12, [GitWildMatchPattern.pattern_to_regex] (with
    [_translate_segment_glob]), [util.normalize_file],
    [util.check_match_file] and [PathSpec.match_file], for patterns made of
    literal characters, [*], [?], [**], [/], a leading [!] and comments.
    [PathSpec] keeps the verdict of the last pattern that matches; it is not
    [GitIgnoreSpec], and it does not look at the directories above a
    path. *)

Module Pathspec.

(** A compiled pattern: [include] is [None] for a comment or a blank
    line, [Some false] for a negated pattern. *)
Record Pattern : Type := { regex : option Re.regex; include : option bool }.

Definition null_pattern : Pattern := {| regex := None; include := None |}.

Definition is_double_star (seg : string) : bool := String.eqb seg "**".
Definition is_empty (seg : string) : bool := String.eqb seg "".

(** Runs of [**] segments are collapsed to one. *)
Fixpoint collapse (segs : list string) : list string :=
  match segs with
  | a :: ((b :: _) as tl) =>
      if is_double_star a && is_double_star b then collapse tl else a :: collapse tl
  | _ => segs
  end.

(** [_translate_segment_glob], on a segment without [[] and [\]. *)
Fixpoint translate_segment_glob (seg : string) : option Re.regex :=
  match seg with
  | "" => Some Re.Eps
  | String a seg' =>
      r ← translate_segment_glob seg';
      if Ascii.eqb a "*" then Some (Re.Cat (Re.Star Re.not_slash) r)
      else if Ascii.eqb a "?" then Some (Re.Cat Re.not_slash r)
      else if Ascii.eqb a "[" || Ascii.eqb a "\" then None
      else Some (Re.Cat (Re.chr a) r)
  end.

(** The optional group of a slash and any characters: the paths below a
    matched file or directory. *)
Definition descendants : Re.regex := Re.opt (Re.Cat Re.slash (Re.Star Re.dot)).

(** The loop of [pattern_to_regex] over the normalised segments; [first]
    tells [i == 0], an empty rest tells [i == end]. *)
Fixpoint build (first need_slash : bool) (segs : list string) : option (list Re.regex) :=
  match segs with
  | [] => Some []
  | seg :: rest =>
      let last := match rest with [] => true | _ => false end in
      let sep := if need_slash then [Re.slash] else [] in
      let tail := if last then [descendants] else [] in
      if is_double_star seg then
        if first && last then
          Some [Re.plus Re.not_slash; descendants]
        else if first then
          out ← build false false rest;
          Some (Re.opt (Re.Cat (Re.plus Re.dot) Re.slash) :: out)
        else if last then
          Some [Re.slash; Re.Star Re.dot]
        else
          out ← build false true rest;
          Some (Re.opt (Re.Cat Re.slash (Re.plus Re.dot)) :: out)
      else if String.eqb seg "*" then
        out ← build false true rest;
        Some (sep ++ [Re.plus Re.not_slash] ++ tail ++ out)
      else
        r ← translate_segment_glob seg;
        out ← build false true rest;
        Some (sep ++ [r] ++ tail ++ out)
  end.

Definition set_last_double_star (segs : list string) : list string :=
  match segs with
  | _ :: _ :: _ =>
      if is_empty (List.last segs "x") then removelast segs ++ ["**"] else segs
  | _ => segs
  end.

(** [GitWildMatchPattern.pattern_to_regex] *)
Definition pattern_to_regex (line : string) : result Pattern :=
  if negb (Str.all_ascii line) then Raise OutsideFragment
  else
    let pattern := Str.strip line in
    if Str.startswith "#" pattern then Ok null_pattern
    else if Str.contains "[" pattern || Str.contains "\" pattern then Raise OutsideFragment
    else if String.eqb pattern "/" then Ok null_pattern
    else if String.eqb pattern "" then Ok null_pattern
    else
      let negated := Str.startswith "!" pattern in
      let pattern := if negated then Str.drop 1 pattern else pattern in
      let segs := collapse (Str.split "/" pattern) in
      let override :=
        match segs with
        | [a; b] => is_double_star a && is_empty b
        | _ => false
        end in
      let segs :=
        match segs with
        | a :: rest =>
            if is_empty a then rest
            else match rest with
                 | [] => if is_double_star a then segs else "**" :: segs
                 | [b] => if is_empty b
                          then (if is_double_star a then segs else "**" :: segs)
                          else segs
                 | _ => segs
                 end
        | [] => segs
        end in
      match segs with
      | [] => Raise GitWildMatchPatternError
      | _ =>
          let segs := set_last_double_star segs in
          let compiled :=
            if override
            then Some (Re.seq [Re.plus Re.dot; Re.slash; Re.Star Re.dot])
            else Re.seq <$> build true false segs in
          match compiled with
          | Some r => Ok {| regex := Some r; include := Some (negb negated) |}
          | None => Raise OutsideFragment
          end
      end.

(** A [PathSpec] is the list of its compiled patterns. *)
Definition PathSpec : Type := list Pattern.

(** [PathSpec.from_lines('gitwildmatch', lines)] *)
Definition from_lines (lines : list string) : result PathSpec :=
  mapM pattern_to_regex (List.filter (fun l => negb (String.eqb l "")) lines).

(** [util.normalize_file] *)
Definition normalize_file (file : string) : string :=
  if Str.startswith "/" file then Str.drop 1 file
  else if Str.startswith "./" file then Str.drop 2 file
  else file.

(** [pattern.match_file(file) is not None] *)
Definition pattern_matches (p : Pattern) (file : string) : bool :=
  match regex p with
  | Some r => Re.matches r file
  | None => false
  end.

(** [util.check_match_file]: the patterns are tried in order and the last
    one that matches decides. *)
Fixpoint check_match_file (patterns : list Pattern) (file : string)
         (out_include : option bool) : option bool :=
  match patterns with
  | [] => out_include
  | p :: rest =>
      check_match_file rest file
        (match include p with
         | Some i => if pattern_matches p file then Some i else out_include
         | None => out_include
         end)
  end.

(** [spec.match_file(file)] *)
Definition match_file (spec : PathSpec) (file : string) : bool :=
  match check_match_file spec (normalize_file file) None with
  | Some true => true
  | _ => false
  end.

End Pathspec.

(** ** [class CodeScanner] *)

Module Scanner.

Import Pathlib FS.

(** The attributes of a scanner. *)
Record CodeScanner : Type := {
  extensions : gset string;
  exclude_patterns : gset string;
  exclude_extensions : gset string;
  no_structure : bool;
  gitspec : option Pathspec.PathSpec;
  base_dir : option Path
}.

Definition set_gitspec (self : CodeScanner) (spec : Pathspec.PathSpec) : CodeScanner :=
  {| extensions := extensions self;
     exclude_patterns := exclude_patterns self;
     exclude_extensions := exclude_extensions self;
     no_structure := no_structure self;
     gitspec := Some spec;
     base_dir := base_dir self |}.

Definition set_base_dir (self : CodeScanner) (p : Path) : CodeScanner :=
  {| extensions := extensions self;
     exclude_patterns := exclude_patterns self;
     exclude_extensions := exclude_extensions self;
     no_structure := no_structure self;
     gitspec := gitspec self;
     base_dir := Some p |}.

Definition default_extensions : gset string :=
  {[ "py"; "java"; "js"; "cpp"; "c"; "h"; "hpp" ]}.

(** [x or d] on an optional set: [None] and the empty set are false. *)
Definition or_default (x : option (gset string)) (d : gset string) : gset string :=
  match x with
  | Some s => if decide (s = ∅) then d else s
  | None => d
  end.

(** [open(path, 'r')] followed by [f.readlines()], for a path given as a
    string, which the kernel resolves as it is: a string that ends with a
    slash, or with a component ["."] after the name of a file, names no
    regular file. *)
Definition open_readlines (w : world) (path : string) : option (list string) :=
  if Str.endswith "/" path then None else readlines w (kernel_path path).

(** [load_gitignore] (lines 26-48).  A file that cannot be read leaves a
    warning on the error stream and contributes no line. *)
Definition load_gitignore (w : world) (self : CodeScanner)
           (gitignore_files : option (list string)) : result CodeScanner :=
  let patterns :=
    match gitignore_files with
    | Some ((_ :: _) as files) =>
        concat (map (fun gitignore_path => default [] (open_readlines w gitignore_path))
                    files)
    | _ =>
        if path_exists w (of_string ".gitignore")
        then default [] (open_readlines w ".gitignore")
        else []
    end in
  match patterns with
  | [] => Ok self
  | _ => spec ← Pathspec.from_lines patterns; Ok (set_gitspec self spec)
  end.

(** Lines 16-21 of [__init__]. *)
Definition fresh (extensions_arg exclude_patterns_arg exclude_extensions_arg
                  : option (gset string)) : CodeScanner :=
{| extensions := or_default extensions_arg default_extensions;
   exclude_patterns := or_default exclude_patterns_arg ∅;
   exclude_extensions := or_default exclude_extensions_arg ∅;
   no_structure := false;
   gitspec := None;
   base_dir := None |}.

(** [__init__] (lines 9-24) *)
Definition init (w : world)
           (extensions_arg exclude_patterns_arg exclude_extensions_arg : option (gset string))
           (gitignore_files : option (list string)) (ignore_gitignore : bool)
  : result CodeScanner :=
let self := fresh extensions_arg exclude_patterns_arg exclude_extensions_arg in
if negb ignore_gitignore then load_gitignore w self gitignore_files else Ok self.

(** The string handed to [match_file]: the path relative to [base], or
    the path as it is when it does not start with [base] (the [ValueError]
    branch). *)
Definition match_key (base item : Path) : string :=
  match relative_to item base with
  | Some rel => str rel
  | None => str item
  end.

(** Lines 52-59: the ignore rules are consulted once the scanner has both
    a matcher and a base directory. *)
Definition gitspec_excludes (self : CodeScanner) (file_path : Path) : bool :=
  match gitspec self, base_dir self with
  | Some spec, Some base => Pathspec.match_file spec (match_key base file_path)
  | _, _ => false
  end.

(** [file_path.suffix.lstrip('.')] *)
Definition extension (file_path : Path) : string := Str.lstrip "." (suffix file_path).

(** [should_include_file] (lines 50-72) *)
Definition should_include_file (self : CodeScanner) (file_path : Path) : bool :=
  if gitspec_excludes self file_path then false
  else if negb (bool_decide (extension file_path ∈ extensions self)) then false
  else if existsb (fun pattern => Str.contains pattern (str file_path))
                  (elements (exclude_patterns self)) then false
  else if existsb (fun ext_pattern => Str.endswith ext_pattern (str file_path))
                  (elements (exclude_extensions self)) then false
  else true.

(** *** The tree walker *)

(** Lines 86-93 of [generate_structure]: with a matcher but no base
    directory, [relative_to(None)] raises a [TypeError]. *)
Definition gitspec_skips (self : CodeScanner) (item : Path) : result bool :=
  match gitspec self with
  | None => Ok false
  | Some spec =>
      match base_dir self with
      | Some base => Ok (Pathspec.match_file spec (match_key base item))
      | None => Raise TypeError
      end
  end.

Definition safe_name (item : Path) : string :=
  Str.replace "_" "\_" (Str.replace "*" "\*" (name item)).

Definition indent (depth : nat) : string := Str.repeat "  " depth.

Definition dir_line (depth : nat) (item : Path) : string :=
  indent depth +:+ "* **" +:+ safe_name item +:+ "/**".

Definition file_line (depth : nat) (item : Path) : string :=
  indent depth +:+ "* " +:+ safe_name item.

(** An entry of the directory being listed: its path, what the file
    system holds there, and the rendering of the tree below it, which the
    loop asks for when the entry is a directory it does not skip. *)
Record visit (A : Type) : Type := Visit { v_item : Path; v_node : node; v_below : result A }.
Arguments Visit {A}.
Arguments v_item {A}.
Arguments v_node {A}.
Arguments v_below {A}.

Definition visit_le {A} (a b : visit A) : Prop := Pathlib.le (v_item a) (v_item b).

#[global] Instance visit_le_dec {A} : RelDecision (@visit_le A).
Proof. intros a b. unfold visit_le. apply _. Defined.

(** The loop of lines 82-104 over the sorted items. *)
Fixpoint structure_loop (self : CodeScanner) (depth : nat) (items : list (visit string))
  : result (list string) :=
  match items with
  | [] => Ok []
  | it :: rest =>
      let item := v_item it in
      if Str.startswith "." (name item) then structure_loop self depth rest
      else
        skip ← gitspec_skips self item;
        if (skip : bool) then structure_loop self depth rest
        else if node_is_dir (v_node it) then
          substructure ← v_below it;
          more ← structure_loop self depth rest;
          if String.eqb substructure "" then Ok more
          else Ok (dir_line depth item :: Str.split Str.LF substructure ++ more)
        else if should_include_file self item then
          more ← structure_loop self depth rest;
          Ok (file_line depth item :: more)
        else structure_loop self depth rest
  end.

(** [generate_structure] (lines 74-109), on the directory [n] that the
    file system holds at [path].  The recursive call is made on each
    entry before the entries are sorted, so that the recursion is on the
    tree; the loop uses it for the directories it descends into.  Listing
    a file raises [NotADirectoryError]; a directory that cannot be listed
    raises the [PermissionError] that line 106 catches. *)
Fixpoint generate_structure (self : CodeScanner) (path : Path) (n : node) (depth : nat)
  : result string :=
  match n with
  | File _ _ => Raise NotADirectoryError
  | Dir false _ => Ok ""
  | Dir true es =>
      let items :=
        map (fun e => match e with
                      | (k, c) => Visit (child path k) c
                                        (generate_structure self (child path k) c (S depth))
                      end) es in
      structure ← structure_loop self depth (merge_sort visit_le items);
      Ok (Str.join Str.lf structure)
  end.

(** The same walk, keeping each line as the entry it stands for. *)
Record line : Type := Line { l_depth : nat; l_item : Path; l_is_dir : bool }.

Definition render_line (l : line) : string :=
  if l_is_dir l then dir_line (l_depth l) (l_item l) else file_line (l_depth l) (l_item l).

Fixpoint listing_loop (self : CodeScanner) (depth : nat) (items : list (visit (list line)))
  : result (list line) :=
  match items with
  | [] => Ok []
  | it :: rest =>
      let item := v_item it in
      if Str.startswith "." (name item) then listing_loop self depth rest
      else
        skip ← gitspec_skips self item;
        if (skip : bool) then listing_loop self depth rest
        else if node_is_dir (v_node it) then
          below ← v_below it;
          more ← listing_loop self depth rest;
          match below with
          | [] => Ok more
          | _ => Ok (Line depth item true :: below ++ more)
          end
        else if should_include_file self item then
          more ← listing_loop self depth rest;
          Ok (Line depth item false :: more)
        else listing_loop self depth rest
  end.

Fixpoint listing (self : CodeScanner) (path : Path) (n : node) (depth : nat)
  : result (list line) :=
  match n with
  | File _ _ => Raise NotADirectoryError
  | Dir false _ => Ok []
  | Dir true es =>
      let items :=
        map (fun e => match e with
                      | (k, c) => Visit (child path k) c
                                        (listing self (child path k) c (S depth))
                      end) es in
      listing_loop self depth (merge_sort visit_le items)
  end.

(** *** The content walker *)

(** What [scan_directory] asks of the file system, in order; the walk of
    the tree counts as one event and so does the enumeration by [glob]. *)
Inductive event : Type :=
| EvExists (p : Path)
| EvResolve (p : Path)
| EvWalkTree (p : Path)
| EvGlob (p : Path) (recursive : bool)
| EvIsFile (p : Path)
| EvOpen (p : Path)
| EvStderr (p : Path).

(** Lines 129-132: [list(directory_path.rglob("*"))] or
    [list(directory_path.glob("*"))]. *)
Definition enumerate (directory_path : Path) (n : node) (recursive : bool) : list Path :=
  if recursive then rglob_star directory_path n else glob_star directory_path n.

(** Lines 134-137 *)
Definition code_files (w : world) (self : CodeScanner) (files : list Path) : list Path :=
  Pathlib.sorted (List.filter (fun f => is_file w f && should_include_file self f) files).

(** One block of the output: the relative path of its heading, the tag
    of its fence and its content. *)
Record block : Type := Block { b_path : Path; b_tag : string; b_content : string }.

(** Lines 140-152; [None] when an exception is caught at line 153. *)
Definition read_block (w : world) (directory_path file_path : Path) : option block :=
  content ← read_text w file_path;
  relative_path ← relative_to file_path directory_path;
  Some (Block relative_path (extension file_path) content).

Definition render_block (b : block) : list string :=
  [ "# " +:+ str (b_path b); "```" +:+ b_tag b; b_content b; "```"; "" ].

(** The blocks of lines 139-154, from the enumeration [files]. *)
Definition blocks (w : world) (self : CodeScanner) (directory_path : Path)
           (files : list Path) : list block :=
  omap (read_block w directory_path) (code_files w self files).

Definition block_events (w : world) (directory_path : Path) (file_path : Path)
  : list event :=
  match read_block w directory_path file_path with
  | Some _ => [EvOpen file_path]
  | None => [EvOpen file_path; EvStderr file_path]
  end.

(** Lines 121-127, for the node [n] that the file system holds at
    [directory_path]. *)
Definition structure_section (self : CodeScanner) (directory_path : Path) (n : node)
  : result (list string) :=
  if no_structure self then Ok []
  else
    dir_structure ← generate_structure self directory_path n 0;
    Ok (["# Repository Structure"]
          ++ (if String.eqb dir_structure "" then [] else [dir_structure])
          ++ [""]).

(** What a call leaves behind: the value returned or the exception
    raised, the scanner after the call, and the events of the call. *)
Record outcome : Type := Outcome {
  returned : result string;
  after : CodeScanner;
  events : list event
}.

(** [scan_directory] (lines 111-156); [directory_path.exists()] holds when
    [stat] finds a node. *)
Definition scan_directory (w : world) (self : CodeScanner) (directory : string)
           (recursive : bool) : outcome :=
  let directory_path := of_string directory in
  match stat w directory_path with
  | None =>
      Outcome (Raise (ValueError ("Directory " +:+ directory +:+ " does not exist")))
              self [EvExists directory_path]
  | Some n =>
      let self := set_base_dir self (resolve w directory_path) in
      let started := [EvExists directory_path; EvResolve directory_path] in
      let walked := if no_structure self then [] else [EvWalkTree directory_path] in
      match structure_section self directory_path n with
      | Raise e => Outcome (Raise e) self (started ++ walked)
      | Ok merged_content =>
          let files := enumerate directory_path n recursive in
          let selected := code_files w self files in
          Outcome
            (Ok (Str.join Str.lf
                   (merged_content
                      ++ concat (map render_block (blocks w self directory_path files)))))
            self
            (started ++ walked ++ [EvGlob directory_path recursive]
               ++ map EvIsFile files
               ++ concat (map (block_events w directory_path) selected))
      end
  end.

(** *** The command line (lines 197-222) *)

(** What [parse_arguments] returns. *)
Record Args : Type := {
  a_directory : string;
  a_extensions : string;
  a_exclude_patterns : string;
  a_exclude_extensions : string;
  a_output : option string;
  a_no_recursive : bool
}.

(** Lines 200-203: [{x.strip() for x in s.split(',') if x.strip()}], for a
    string of ASCII characters. *)
Definition comma_set (s : string) : gset string :=
  list_to_set (List.filter (fun x => negb (String.eqb x ""))
                           (map Str.strip (Str.split "," s))).

(** Lines 206-210: the scanner of the command line; it is given no ignore
    file and does not disable their discovery. *)
Definition cli_scanner (w : world) (args : Args) : result CodeScanner :=
  init w (Some (comma_set (a_extensions args)))
         (Some (comma_set (a_exclude_patterns args)))
         (Some (comma_set (a_exclude_extensions args)))
         None false.

(** Lines 219-222: the scan of the command line.  An exception raised by
    the constructor or by the scan reaches the handler of line 233. *)
Definition cli_scan (w : world) (args : Args) : result string :=
  scanner ← cli_scanner w args;
  returned (scan_directory w scanner (a_directory args) (negb (a_no_recursive args))).

End Scanner.

(** ** Vocabulary of the properties *)

(** A string without the character [c]. *)
Fixpoint lacks (c : ascii) (s : string) : Prop :=
  match s with
  | "" => True
  | String a s' => a <> c /\ lacks c s'
  end.

(** [s] has [p] as a substring, as a prefix, as a suffix. *)
Definition has_substring (p s : string) : Prop := exists a b, s = a +:+ p +:+ b.
Definition has_suffix (p s : string) : Prop := exists a, s = a +:+ p.

(** The extension in the words of the specification: the suffix after the
    last dot of the name (empty when the name has no dot).  It is compared
    below with [Scanner.extension], which the code computes. *)
Definition spec_extension (file_path : Path) : string :=
  match Str.rfind "." (Pathlib.name file_path) with
  | Some i => Str.drop (S i) (Pathlib.name file_path)
  | None => ""
  end.

(** A name that a directory entry can bear. *)
Definition valid_name (k : string) : Prop :=
  k <> "" /\ k <> "." /\ k <> ".." /\ lacks "/" k.

(** A well-formed tree: in every directory the names are valid and no two
    entries share a name. *)
Inductive wf_node : FS.node -> Prop :=
| wf_file r d : wf_node (FS.File r d)
| wf_dir l es :
    NoDup (map fst es) ->
    Forall valid_name (map fst es) ->
    Forall (fun e => wf_node (snd e)) es ->
    wf_node (FS.Dir l es).

(** [reach n rel c]: the node [c] is found below [n] along the entry names
    [rel]. *)
Inductive reach : FS.node -> list string -> FS.node -> Prop :=
| reach_here n : reach n [] n
| reach_down l es k c rel c' :
    In (k, c) es -> reach c rel c' -> reach (FS.Dir l es) (k :: rel) c'.

(** [listed n rel c]: as [reach], through directories that can be listed:
    the entries that [rglob] enumerates. *)
Inductive listed : FS.node -> list string -> FS.node -> Prop :=
| listed_entry es k c : In (k, c) es -> listed (FS.Dir true es) [k] c
| listed_down es k c rel c' :
    In (k, c) es -> listed c rel c' -> listed (FS.Dir true es) (k :: rel) c'.

Definition hidden (k : string) : bool := Str.startswith "." k.

(** The lines of the tree, entry by entry: [in_tree self path n depth l]
    holds when the walk of the directory [n], found at [path] and printed at
    [depth], prints the line [l]. *)
Inductive in_tree (self : Scanner.CodeScanner)
  : Path -> FS.node -> nat -> Scanner.line -> Prop :=
| in_tree_file path es depth k r d :
    In (k, FS.File r d) es ->
    hidden k = false ->
    Scanner.gitspec_skips self (Pathlib.child path k) = Ok false ->
    Scanner.should_include_file self (Pathlib.child path k) = true ->
    in_tree self path (FS.Dir true es) depth
            (Scanner.Line depth (Pathlib.child path k) false)
| in_tree_dir path es depth k l' es' below :
    In (k, FS.Dir l' es') es ->
    hidden k = false ->
    Scanner.gitspec_skips self (Pathlib.child path k) = Ok false ->
    Scanner.listing self (Pathlib.child path k) (FS.Dir l' es') (S depth) = Ok below ->
    below <> [] ->
    in_tree self path (FS.Dir true es) depth
            (Scanner.Line depth (Pathlib.child path k) true)
| in_tree_below path es depth k c l :
    In (k, c) es ->
    hidden k = false ->
    Scanner.gitspec_skips self (Pathlib.child path k) = Ok false ->
    in_tree self (Pathlib.child path k) c (S depth) l ->
    in_tree self path (FS.Dir true es) depth l.

(** [walked self path n rel c]: the tree walker, listing the directory [n]
    found at [path], comes to the entry [c] along the names [rel]: every
    directory on the way can be listed, and no entry on the way is hidden or
    matched by the ignore rules. *)
Inductive walked (self : Scanner.CodeScanner)
  : Path -> FS.node -> list string -> FS.node -> Prop :=
| walked_entry path es k c :
    In (k, c) es ->
    hidden k = false ->
    Scanner.gitspec_skips self (Pathlib.child path k) = Ok false ->
    walked self path (FS.Dir true es) [k] c
| walked_down path es k c rel c' :
    In (k, c) es ->
    hidden k = false ->
    Scanner.gitspec_skips self (Pathlib.child path k) = Ok false ->
    walked self (Pathlib.child path k) c rel c' ->
    walked self path (FS.Dir true es) (k :: rel) c'.

(** The line of the entry found along [rel] below the directory that is
    listed at [path] and printed at [depth]. *)
Definition line_at (depth : nat) (path : Path) (rel : list string) (is_dir : bool)
  : Scanner.line :=
  Scanner.Line (depth + length rel - 1) (path ++ rel) is_dir.

(** The scanner can consult its ignore rules: it has none, or it has a base
    directory ([scan_directory] sets one before it walks). *)
Definition can_match (self : Scanner.CodeScanner) : Prop :=
  Scanner.gitspec self = None \/ Scanner.base_dir self <> None.

(** No pattern of [post] has a verdict for [file]. *)
Definition undecided (post : list Pathspec.Pattern) (file : string) : Prop :=
  forall q, In q post -> Pathspec.include q <> None -> Pathspec.pattern_matches q file = false.

(** The entry of [path] as the loop of line 82 sees it. *)
Definition visit_entry {A} (below : Path -> FS.node -> result A) (path : Path)
           (e : string * FS.node) : Scanner.visit A :=
  Scanner.Visit (Pathlib.child path (fst e)) (snd e)
                (below (Pathlib.child path (fst e)) (snd e)).

(** The order in which [sorted] puts the entries of [path]. *)
Definition entry_le (path : Path) (e1 e2 : string * FS.node) : Prop :=
  Pathlib.le (Pathlib.child path (fst e1)) (Pathlib.child path (fst e2)).

#[global] Instance entry_le_dec path : RelDecision (entry_le path).
Proof. intros a b. unfold entry_le. apply _. Defined.

(** The strings of the loop and the lines they stand for. *)
Definition same_text (lines : list string) (ls : list Scanner.line) : Prop :=
  (lines = [] <-> ls = [])
  /\ Str.join Str.lf lines = Str.join Str.lf (map Scanner.render_line ls).

(** [generate_structure] returns the lines of [listing], rendered and
    joined, or raises as [listing] does. *)
Definition rendered (self : Scanner.CodeScanner) (n : FS.node) : Prop :=
  forall path depth,
    match Scanner.listing self path n depth with
    | Ok ls => Scanner.generate_structure self path n depth
               = Ok (Str.join Str.lf (map Scanner.render_line ls))
    | Raise e => Scanner.generate_structure self path n depth = Raise e
    end.

(** A stack of the merge sort, mapped. *)
Definition stack_fmap {A B} (h : A -> B) (st : list (option (list A)))
  : list (option (list B)) :=
  map (fun o => match o with Some l => Some (h <$> l) | None => None end) st.

(** [alike n n']: the two trees hold the same names at the same places,
    directories with the same listability; the order in which a directory
    enumerates its entries and what the files hold may differ. *)
Inductive alike : FS.node -> FS.node -> Prop :=
| alike_file r d r' d' : alike (FS.File r d) (FS.File r' d')
| alike_dir l es es1 es' :
    Forall2 (fun e e1 => fst e = fst e1 /\ alike (snd e) (snd e1)) es es1 ->
    es1 ≡ₚ es' ->
    alike (FS.Dir l es) (FS.Dir l es').

(** An entry name with the two nodes found under it in two trees. *)
Definition pair_left (z : string * (FS.node * FS.node)) : string * FS.node :=
  (fst z, fst (snd z)).

Definition pair_right (z : string * (FS.node * FS.node)) : string * FS.node :=
  (fst z, snd (snd z)).

Definition pair_le (path : Path) (z1 z2 : string * (FS.node * FS.node)) : Prop :=
  Pathlib.le (Pathlib.child path (fst z1)) (Pathlib.child path (fst z2)).

#[global] Instance pair_le_dec path : RelDecision (pair_le path).
Proof. intros a b. unfold pair_le. apply _. Defined.

(** [p] comes strictly before [q] in the order of [sorted]. *)
Definition path_lt (p q : Path) : Prop := Pathlib.le p q /\ p <> q.

(** Every [c] of [s] comes right after a backslash; [after_backslash]
    tells whether the character before [s] is one. *)
Fixpoint escaped (c : ascii) (after_backslash : bool) (s : string) : Prop :=
  match s with
  | "" => True
  | String a s' => (a = c -> after_backslash = true) /\ escaped c (Ascii.eqb a "\") s'
  end.

(** ** A project on disk, used in the examples

    [/w] is the working directory; the project is [/w/proj]. *)

Module Example.

Import FS Scanner.

Definition file (data : string) : node := File true data.

Definition proj : node :=
  Dir true
    [ ("b.txt", file "hello");
      ("a.py", file "x=1");
      ("sub", Dir true [ ("important.py", file "imp"); ("c.py", file "c") ]);
      (".hidden.py", file "h");
      ("Makefile", file "all:");
      ("important.py", file "top");
      ("empty", Dir true [ ("e2", Dir true [ ("x.txt", file "") ]) ]) ].

Definition proj_path : Path := ["/"; "w"; "proj"].

(** A scanner with the default extensions and no ignore rule, as
    [scan_directory] has it while it scans [/w/proj]. *)
Definition plain : CodeScanner :=
  {| extensions := default_extensions;
     exclude_patterns := ∅;
     exclude_extensions := ∅;
     no_structure := false;
     gitspec := None;
     base_dir := Some proj_path |}.

(** A scanner that allows the extension [env] only. *)
Definition only_env : CodeScanner :=
{| extensions := {[ "env" ]};
   exclude_patterns := ∅;
   exclude_extensions := ∅;
   no_structure := false;
   gitspec := None;
   base_dir := Some proj_path |}.

(** The disk: [/w] holds the project and, when [gitignore] is given, a
    [.gitignore] file with these bytes; [/w] is the working directory. *)
Definition disk (gitignore : option string) : world :=
World (Dir true
         [ ("w", Dir true
                   (match gitignore with
                    | Some data => [ (".gitignore", file data) ]
                    | None => []
                    end ++ [ ("proj", proj) ])) ])
      ["/"; "w"].

(** Two rule files with the same three rules, in two orders. *)
Definition rules_sub_last : string :=
"*.py" +:+ Str.lf +:+ "!important.py" +:+ Str.lf +:+ "sub/" +:+ Str.lf.

Definition rules_sub_first : string :=
"sub/" +:+ Str.lf +:+ "*.py" +:+ Str.lf +:+ "!important.py" +:+ Str.lf.

(** A disk whose project has a [.gitignore] of its own, while the working
    directory [/w] has none. *)
Definition disk_rules_in_project : world :=
World (Dir true
         [ ("w", Dir true
                   [ ("proj", Dir true [ (".gitignore", file ("*.py" +:+ Str.lf));
                                         ("a.py", file "x=1") ]) ]) ])
      ["/"; "w"].




End Example.

(** * Properties *)

(** ** Strings *)

Section StrFacts.

Lemma sapp_cons a s t : String a s +:+ t = String a (s +:+ t).
Proof. reflexivity. Qed.

Lemma sapp_nil_l s : "" +:+ s = s.
Proof. reflexivity. Qed.

Lemma sapp_nil_r s : s +:+ "" = s.
Proof. induction s as [|a s IH]; [reflexivity|]. rewrite sapp_cons, IH. reflexivity. Qed.

Lemma sapp_assoc s t u : (s +:+ t) +:+ u = s +:+ (t +:+ u).
Proof.
  induction s as [|a s IH]; [reflexivity|].
  rewrite !sapp_cons, IH. reflexivity.
Qed.

Lemma sapp_eq_nil s t : s +:+ t = "" -> s = "" /\ t = "".
Proof. destruct s; [auto|]. rewrite sapp_cons. discriminate. Qed.

Lemma startswith_spec p s :
  Str.startswith p s = true <-> exists t, s = p +:+ t.
Proof.
  revert s. induction p as [|a p IH]; intros s; simpl.
  - split; [intros _; exists s; reflexivity | reflexivity].
  - destruct s as [|b s].
    + split; [discriminate|]. intros [t Ht]. rewrite sapp_cons in Ht. discriminate.
    + destruct (Ascii.eqb_spec a b) as [->|Hab].
      * rewrite IH. split; intros [t Ht]; exists t.
        -- rewrite sapp_cons. congruence.
        -- rewrite sapp_cons in Ht. congruence.
      * split; [discriminate|]. intros [t Ht]. rewrite sapp_cons in Ht. congruence.
Qed.

Lemma endswith_spec p s :
  Str.endswith p s = true <-> exists t, s = t +:+ p.
Proof.
  induction s as [|b s IH]; simpl.
  - destruct (String.eqb_spec p "") as [->|Hp].
    + split; [intros _; exists ""; reflexivity | reflexivity].
    + split; [discriminate|]. intros [t Ht]. symmetry in Ht.
      apply sapp_eq_nil in Ht. tauto.
  - destruct (String.eqb_spec p (String b s)) as [->|Hp].
    + split; [intros _; exists ""; reflexivity | reflexivity].
    + rewrite IH. split.
      * intros [t ->]. exists (String b t). reflexivity.
      * intros [t Ht]. destruct t as [|c t].
        -- rewrite sapp_nil_l in Ht. congruence.
        -- rewrite sapp_cons in Ht. exists t. congruence.
Qed.

Lemma contains_spec p s :
  Str.contains p s = true <-> exists a b, s = a +:+ p +:+ b.
Proof.
  induction s as [|c s IH]; simpl.
  - destruct (Str.startswith p "") eqn:E.
    + apply startswith_spec in E as [t Ht]. split; [|reflexivity].
      intros _. exists "", t. exact Ht.
    + split; [discriminate|]. intros (a & b & H). symmetry in H.
      apply sapp_eq_nil in H as [-> H]. apply sapp_eq_nil in H as [-> _].
      discriminate.
  - destruct (Str.startswith p (String c s)) eqn:E.
    + apply startswith_spec in E as [t Ht]. split; [|reflexivity].
      intros _. exists "", t. exact Ht.
    + rewrite IH. split.
      * intros (a & b & ->). exists (String c a), b. reflexivity.
      * intros (a & b & H). destruct a as [|d a].
        -- rewrite sapp_nil_l in H.
           assert (Str.startswith p (String c s) = true) as E'
             by (apply startswith_spec; eauto).
           congruence.
        -- rewrite sapp_cons in H. exists a, b. congruence.
Qed.

Lemma rfind_None c s : Str.rfind c s = None <-> lacks c s.
Proof.
  induction s as [|a s IH]; simpl; [tauto|].
  destruct (Str.rfind c s) as [i|].
  - split; [discriminate|]. intros [_ H]. apply IH in H. discriminate.
  - destruct (Ascii.eqb_spec a c); intuition congruence.
Qed.

Lemma rfind_app_dot c s e :
  lacks c e -> Str.rfind c (s +:+ String c e) = Some (String.length s).
Proof.
  intros He. induction s as [|a s IH].
  - rewrite sapp_nil_l. simpl. apply rfind_None in He. rewrite He.
    rewrite Ascii.eqb_refl. reflexivity.
  - rewrite sapp_cons. simpl. rewrite IH. reflexivity.
Qed.

Lemma sdrop_app_length s t : Str.drop (String.length s) (s +:+ t) = t.
Proof.
  induction s as [|a s IH]; [destruct t; reflexivity|].
  rewrite sapp_cons. simpl. exact IH.
Qed.

Lemma slength_app s t : String.length (s +:+ t) = String.length s + String.length t.
Proof.
  induction s as [|a s IH]; [reflexivity|].
  rewrite sapp_cons. simpl. rewrite IH. reflexivity.
Qed.

Lemma lstrip_lacks c e : lacks c e -> Str.lstrip c e = e.
Proof.
  destruct e as [|a e]; [reflexivity|]. simpl. intros [Ha _].
  destruct (Ascii.eqb_spec a c); [contradiction | reflexivity].
Qed.

Lemma join_cons sep x y l :
  Str.join sep (x :: y :: l) = x +:+ sep +:+ Str.join sep (y :: l).
Proof. reflexivity. Qed.

Lemma join_app sep l1 l2 :
  l1 <> [] -> l2 <> [] ->
  Str.join sep (l1 ++ l2) = Str.join sep l1 +:+ sep +:+ Str.join sep l2.
Proof.
  intros H1 H2. induction l1 as [|x l1 IH]; [contradiction|].
  destruct l1 as [|y l1].
  - destruct l2 as [|z l2]; [contradiction|]. reflexivity.
  - change ((x :: y :: l1) ++ l2) with (x :: y :: (l1 ++ l2)).
    rewrite !join_cons. change (y :: l1 ++ l2) with ((y :: l1) ++ l2).
    rewrite IH by discriminate. rewrite !sapp_assoc. reflexivity.
Qed.

Lemma split_nonempty c s : Str.split c s <> [].
Proof.
  destruct s as [|a s]; simpl; [discriminate|].
  destruct (Ascii.eqb a c); [discriminate|].
  destruct (Str.split c s); discriminate.
Qed.

Lemma join_split c s : Str.join (String c "") (Str.split c s) = s.
Proof.
  induction s as [|a s IH]; [reflexivity|]. simpl.
  destruct (Ascii.eqb_spec a c) as [->|Hac].
  - pose proof (split_nonempty c s) as Hne.
    destruct (Str.split c s) as [|h t]; [contradiction|].
    rewrite join_cons, IH. reflexivity.
  - pose proof (split_nonempty c s) as Hne.
    destruct (Str.split c s) as [|h t]; [contradiction|].
    destruct t as [|h' t].
    + simpl in *. congruence.
    + rewrite join_cons in *. rewrite sapp_cons. congruence.
Qed.

Lemma join_nonempty sep x l : x <> "" -> Str.join sep (x :: l) <> "".
Proof.
  intros Hx. destruct l as [|y l]; [exact Hx|].
  rewrite join_cons. intros H. apply sapp_eq_nil in H. tauto.
Qed.

End StrFacts.

(** ** The order on paths *)

Section PathOrder.

Import Pathlib.

Lemma str_leb_refl x : Str.leb x x = true.
Proof. apply Is_true_true. apply (reflexivity (R := String.le)). Qed.

Lemma str_leb_trans x y z : Str.leb x y = true -> Str.leb y z = true -> Str.leb x z = true.
Proof.
  intros H1%Is_true_true H2%Is_true_true. apply Is_true_true.
  exact (transitivity (R := String.le) H1 H2).
Qed.

Lemma str_leb_antisym x y : Str.leb x y = true -> Str.leb y x = true -> x = y.
Proof. apply String.leb_antisym. Qed.

Lemma str_leb_total x y : Str.leb x y = true \/ Str.leb y x = true.
Proof. apply String.leb_total. Qed.

Lemma leb_refl p : leb p p = true.
Proof. induction p as [|x p IH]; [reflexivity|]. simpl. rewrite String.eqb_refl. exact IH. Qed.

Lemma leb_total p q : leb p q = true \/ leb q p = true.
Proof.
  revert q. induction p as [|x p IH]; intros [|y q]; simpl; auto.
  rewrite (String.eqb_sym y x).
  destruct (String.eqb_spec x y) as [->|Hxy]; [apply IH | apply str_leb_total].
Qed.

Lemma leb_antisym p q : leb p q = true -> leb q p = true -> p = q.
Proof.
  revert q. induction p as [|x p IH]; intros [|y q]; simpl; try discriminate; auto.
  rewrite (String.eqb_sym y x).
  destruct (String.eqb_spec x y) as [->|Hxy].
  - intros H1 H2. f_equal. auto.
  - intros H1 H2. exfalso. apply Hxy. apply str_leb_antisym; assumption.
Qed.

Lemma leb_trans p q r : leb p q = true -> leb q r = true -> leb p r = true.
Proof.
  revert q r. induction p as [|x p IH]; intros [|y q] [|z r]; simpl;
    try discriminate; auto.
  destruct (String.eqb_spec x y) as [->|Hxy].
  - destruct (String.eqb_spec y z) as [->|Hyz]; [apply IH | auto].
  - destruct (String.eqb_spec y z) as [->|Hyz].
    + destruct (String.eqb_spec x z); [contradiction | auto].
    + intros H1 H2. destruct (String.eqb_spec x z) as [->|Hxz].
      * exfalso. apply Hxy. apply str_leb_antisym; assumption.
      * eapply str_leb_trans; eassumption.
Qed.

#[global] Instance le_total : Total le.
Proof. intros p q. apply leb_total. Qed.

#[global] Instance le_trans : Transitive le.
Proof. intros p q r. apply leb_trans. Qed.

#[global] Instance le_antisym : AntiSymm (=) le.
Proof. intros p q. apply leb_antisym. Qed.

#[global] Instance le_refl : Reflexive le.
Proof. intros p. apply leb_refl. Qed.

(** The paths below a common directory are ordered as their relative
    parts. *)
Lemma leb_app d p q : leb (d ++ p) (d ++ q) = leb p q.
Proof. induction d as [|x d IH]; [reflexivity|]. simpl. rewrite String.eqb_refl. exact IH. Qed.

Lemma sorted_is_sorted l : Sorted le (sorted l).
Proof. apply (Sorted_merge_sort le). Qed.

Lemma sorted_strongly l : StronglySorted le (sorted l).
Proof. apply Sorted_StronglySorted; [apply _ | apply sorted_is_sorted]. Qed.

Lemma sorted_perm l : sorted l ≡ₚ l.
Proof. apply (merge_sort_Permutation le). Qed.

(** Whatever the algorithm, the sorted list of a given list of paths is
    unique: [sorted] depends on the elements only. *)
Lemma sorted_unique l1 l2 :
  Sorted le l1 -> l1 ≡ₚ l2 -> l1 = sorted l2.
Proof.
  intros H1 HP. apply (Sorted_unique le); [exact H1 | apply sorted_is_sorted |].
  rewrite sorted_perm. exact HP.
Qed.

Lemma sorted_permutation_invariant l1 l2 : l1 ≡ₚ l2 -> sorted l1 = sorted l2.
Proof.
  intros HP. apply sorted_unique; [apply sorted_is_sorted|].
  rewrite sorted_perm. exact HP.
Qed.

End PathOrder.

(** ** The filter: [should_include_file] *)

Section Filter.

Import Pathlib Scanner.

Lemma rfind_Some c s i :
  Str.rfind c s = Some i ->
  exists a e, s = a +:+ String c e /\ String.length a = i /\ lacks c e.
Proof.
  revert i. induction s as [|b s IH]; intros i; simpl; [discriminate|].
  destruct (Str.rfind c s) as [j|] eqn:E.
  - intros [= <-]. destruct (IH j eq_refl) as (a & e & -> & <- & He).
    exists (String b a), e. auto.
  - destruct (Ascii.eqb_spec b c) as [->|]; [|discriminate].
    intros [= <-]. exists "", s. repeat split. apply rfind_None. exact E.
Qed.

(** The extension the code computes: the text after the last dot of the
    name when that dot is neither the first nor the last character of the
    name, and the empty string in every other case. *)
Lemma extension_cases (p : Path) :
  (exists stem e, name p = stem +:+ "." +:+ e /\ stem <> "" /\ e <> ""
                  /\ lacks "." e /\ extension p = e)
  \/ (extension p = ""
      /\ (lacks "." (name p)
          \/ (exists e, name p = "." +:+ e /\ lacks "." e)
          \/ (exists stem, name p = stem +:+ "."))).
Proof.
  unfold extension, suffix.
  destruct (Str.rfind "." (name p)) as [i|] eqn:E.
  - destruct (rfind_Some _ _ _ E) as (a & e & Hn & Hi & He).
    rewrite Hn, slength_app. simpl String.length. rewrite Hi.
    destruct a as [|a0 a].
    + right. simpl in Hi. subst i. simpl. split; [reflexivity|].
      right; left. exists e. split; [reflexivity | exact He].
    + simpl in Hi. subst i.
      destruct e as [|e0 e].
      * right. split.
        -- simpl String.length.
           match goal with |- context [(0 <? ?x)%nat && (?y <? ?z)%nat] =>
             destruct (Nat.ltb_spec y z); [lia|] end.
           rewrite andb_false_r. reflexivity.
        -- right; right. exists (String a0 a). reflexivity.
      * left. exists (String a0 a), (String e0 e).
        simpl String.length.
        match goal with |- context [(0 <? ?x)%nat && (?y <? ?z)%nat] =>
          destruct (Nat.ltb_spec y z); [|lia] end.
        change (0 <? S (String.length a))%nat with true. cbn [andb].
        change (S (String.length a)) with (String.length (String a0 a)).
        rewrite sdrop_app_length.
        repeat split; try discriminate; try apply He.
        change (Str.lstrip "." (String "." (String e0 e)))
          with (Str.lstrip "." (String e0 e)).
        apply lstrip_lacks. exact He.
  - right. split; [reflexivity|]. left. apply rfind_None. exact E.
Qed.

Lemma extension_no_dot (p : Path) : lacks "." (name p) -> extension p = "".
Proof.
  intros H. unfold extension, suffix. apply rfind_None in H. rewrite H. reflexivity.
Qed.

Lemma existsb_elements (f : string -> bool) (X : gset string) :
  existsb f (elements X) = false <-> forall x, x ∈ X -> f x = false.
Proof.
  split.
  - intros H x Hx. apply elem_of_elements, list_elem_of_In in Hx.
    destruct (f x) eqn:E; [|reflexivity].
    assert (existsb f (elements X) = true) by (apply existsb_exists; eauto).
    congruence.
  - intros H. destruct (existsb f (elements X)) eqn:E; [|reflexivity].
    apply existsb_exists in E as (x & Hx & Hfx).
    apply list_elem_of_In, elem_of_elements in Hx. rewrite (H x Hx) in Hfx. discriminate.
Qed.

Lemma gitspec_excludes_false self file_path :
  gitspec_excludes self file_path = false <->
  (forall spec base, gitspec self = Some spec -> base_dir self = Some base ->
                     Pathspec.match_file spec (match_key base file_path) = false).
Proof.
  unfold gitspec_excludes.
  destruct (gitspec self) as [spec|], (base_dir self) as [base|];
    (split; [intros H spec' base' E1 E2 | intros H]);
    try discriminate; try reflexivity.
  - injection E1 as <-. injection E2 as <-. exact H.
  - apply H; reflexivity.
Qed.

(** The verdict of [should_include_file], check by check. *)
Lemma should_include_file_true self file_path :
  should_include_file self file_path = true <->
  gitspec_excludes self file_path = false
  /\ extension file_path ∈ extensions self
  /\ (forall pattern, pattern ∈ exclude_patterns self ->
                      ~ has_substring pattern (str file_path))
  /\ (forall ext_pattern, ext_pattern ∈ exclude_extensions self ->
                          ~ has_suffix ext_pattern (str file_path)).
Proof.
  unfold should_include_file.
  destruct (gitspec_excludes self file_path); [intuition discriminate|].
  destruct (bool_decide (extension file_path ∈ extensions self)) eqn:Eext; cbn [negb].
  2:{ apply bool_decide_eq_false in Eext. intuition discriminate. }
  apply bool_decide_eq_true in Eext.
  destruct (existsb _ (elements (exclude_patterns self))) eqn:Epat.
  { apply existsb_exists in Epat as (x & Hx & Hc).
    apply list_elem_of_In, elem_of_elements in Hx. apply contains_spec in Hc.
    split; [discriminate|]. intros (_ & _ & H & _). destruct (H x Hx Hc). }
  destruct (existsb _ (elements (exclude_extensions self))) eqn:Eend.
  { apply existsb_exists in Eend as (x & Hx & Hc).
    apply list_elem_of_In, elem_of_elements in Hx. apply endswith_spec in Hc.
    split; [discriminate|]. intros (_ & _ & _ & H). destruct (H x Hx Hc). }
  split; [intros _ | reflexivity].
  repeat split; auto.
  - intros x Hx Hc. apply contains_spec in Hc.
    rewrite existsb_elements in Epat. rewrite (Epat x Hx) in Hc. discriminate.
  - intros x Hx Hc. apply endswith_spec in Hc.
    rewrite existsb_elements in Eend. rewrite (Eend x Hx) in Hc. discriminate.
Qed.

End Filter.

(** ** Sorting commutes with a map that keeps the order *)

Section SortMap.

Context {A B : Type} (R1 : relation A) (R2 : relation B).
Context `{!RelDecision R1, !RelDecision R2}.
Variable h : A -> B.
Hypothesis h_order : forall x y, R1 x y <-> R2 (h x) (h y).

Lemma list_merge_fmap l1 l2 :
  list_merge R2 (h <$> l1) (h <$> l2) = h <$> list_merge R1 l1 l2.
Proof.
  revert l2. induction l1 as [|x1 l1 IH1]; intros l2.
  - rewrite fmap_nil, !list_merge_nil_l. reflexivity.
  - induction l2 as [|x2 l2 IH2].
    + rewrite (fmap_nil h), !list_merge_nil_r. reflexivity.
    + rewrite !fmap_cons, !list_merge_cons.
      destruct (decide (R1 x1 x2)) as [H1|H1], (decide (R2 (h x1) (h x2))) as [H2|H2].
      * rewrite fmap_cons. f_equal. rewrite <- IH1. reflexivity.
      * exfalso. apply H2, h_order, H1.
      * exfalso. apply H1, h_order, H2.
      * rewrite fmap_cons. f_equal. exact IH2.
Qed.

Lemma merge_list_to_stack_fmap (st : list (option (list A))) (l : list A) :
  merge_list_to_stack R2 (stack_fmap h st) (h <$> l)
  = stack_fmap h (merge_list_to_stack R1 st l).
Proof.
  revert l. induction st as [|[l'|] st IH]; intros l; simpl; try reflexivity.
  f_equal. rewrite list_merge_fmap. apply IH.
Qed.

Lemma merge_stack_fmap (st : list (option (list A))) :
  merge_stack R2 (stack_fmap h st) = h <$> merge_stack R1 st.
Proof.
  induction st as [|[l'|] st IH]; simpl; try reflexivity; try exact IH.
  rewrite IH. apply list_merge_fmap.
Qed.

Lemma merge_sort_aux_fmap (st : list (option (list A))) (l : list A) :
  merge_sort_aux R2 (stack_fmap h st) (h <$> l) = h <$> merge_sort_aux R1 st l.
Proof.
  revert st. induction l as [|x l IH]; intros st; simpl.
  - apply merge_stack_fmap.
  - rewrite <- IH. f_equal. apply (merge_list_to_stack_fmap st [x]).
Qed.

Lemma merge_sort_fmap (l : list A) : merge_sort R2 (h <$> l) = h <$> merge_sort R1 l.
Proof. apply (merge_sort_aux_fmap [] l). Qed.

End SortMap.

(** ** The tree walker *)

Section NodeInduction.

Import FS.

Variable P : node -> Prop.
Hypothesis P_file : forall r d, P (File r d).
Hypothesis P_dir : forall l es, Forall (fun e => P (snd e)) es -> P (Dir l es).

Fixpoint node_induction (n : node) : P n :=
  match n with
  | File r d => P_file r d
  | Dir l es =>
      P_dir l es
        ((fix all (es : list (string * node)) : Forall (fun e => P (snd e)) es :=
            match es with
            | [] => @List.Forall_nil _ (fun e => P (snd e))
            | (k, c) :: es' =>
                @List.Forall_cons _ (fun e => P (snd e)) (k, c) es'
                                  (node_induction c) (all es')
            end) es)
  end.

End NodeInduction.

Section Tree.

Import Pathlib FS Scanner.

#[local] Arguments Str.startswith : simpl never.
#[local] Arguments should_include_file : simpl never.
#[local] Arguments gitspec_skips : simpl never.

Variable self : CodeScanner.

Lemma generate_structure_dir path es depth :
  generate_structure self path (Dir true es) depth
  = (structure ← structure_loop self depth
       (visit_entry (fun p c => generate_structure self p c (S depth)) path
          <$> merge_sort (entry_le path) es);
     Ok (Str.join Str.lf structure)).
Proof.
  rewrite <- (merge_sort_fmap (entry_le path) visit_le); [|reflexivity].
  cbn [generate_structure]. f_equal. f_equal. f_equal.
  apply map_ext. intros [k c]. reflexivity.
Qed.

Lemma listing_dir path es depth :
  listing self path (Dir true es) depth
  = listing_loop self depth
      (visit_entry (fun p c => listing self p c (S depth)) path
         <$> merge_sort (entry_le path) es).
Proof.
  rewrite <- (merge_sort_fmap (entry_le path) visit_le); [|reflexivity].
  cbn [listing]. f_equal. f_equal.
  apply map_ext. intros [k c]. reflexivity.
Qed.

Lemma In_sorted_entries path es e : In e (merge_sort (entry_le path) es) <-> In e es.
Proof.
  rewrite <- !list_elem_of_In. rewrite (merge_sort_Permutation (entry_le path) es).
  reflexivity.
Qed.

Lemma hidden_child path k : Str.startswith "." (name (child path k)) = hidden k.
Proof.
  unfold hidden, name, child. destruct path as [|r rest].
  - cbn [app]. unfold is_root.
    destruct (String.eqb_spec k "/") as [->|]; [reflexivity|].
    destruct (String.eqb_spec k "//") as [->|]; reflexivity.
  - change ((r :: rest) ++ [k]) with (r :: (rest ++ [k])). cbv iota beta.
    destruct (is_root r).
    + rewrite last_last. reflexivity.
    + change (r :: rest ++ [k]) with ((r :: rest) ++ [k]). rewrite last_last. reflexivity.
Qed.

(** Where a line of the loop comes from. *)
Lemma listing_loop_sound depth its ls :
  listing_loop self depth its = Ok ls ->
  forall l, In l ls ->
  exists it, In it its
    /\ Str.startswith "." (name (v_item it)) = false
    /\ gitspec_skips self (v_item it) = Ok false
    /\ ((node_is_dir (v_node it) = true
         /\ exists below, v_below it = Ok below /\ below <> []
              /\ (l = Line depth (v_item it) true \/ In l below))
        \/ (node_is_dir (v_node it) = false
            /\ should_include_file self (v_item it) = true
            /\ l = Line depth (v_item it) false)).
Proof.
  revert ls. induction its as [|it its IH]; intros ls; simpl.
  - intros [= <-] l [].
  - assert (Hrest : forall ls', listing_loop self depth its = Ok ls' ->
              forall l, In l ls' -> exists it0, In it0 (it :: its)
                /\ Str.startswith "." (name (v_item it0)) = false
                /\ gitspec_skips self (v_item it0) = Ok false
                /\ ((node_is_dir (v_node it0) = true
                     /\ exists below, v_below it0 = Ok below /\ below <> []
                          /\ (l = Line depth (v_item it0) true \/ In l below))
                    \/ (node_is_dir (v_node it0) = false
                        /\ should_include_file self (v_item it0) = true
                        /\ l = Line depth (v_item it0) false))).
    { intros ls' H l Hl. destruct (IH ls' H l Hl) as (it0 & Hin & Hrest).
      exists it0. split; [right; exact Hin | exact Hrest]. }
    destruct (Str.startswith "." (name (v_item it))) eqn:Hh; [apply Hrest|].
    destruct (gitspec_skips self (v_item it)) as [[|]|e] eqn:Hs; simpl;
      [apply Hrest | | discriminate].
    destruct (node_is_dir (v_node it)) eqn:Hd.
    + destruct (v_below it) as [below|e] eqn:Hb; simpl; [|discriminate].
      destruct (listing_loop self depth its) as [more|e] eqn:Hm; simpl; [|discriminate].
      destruct below as [|b below].
      * intros [= <-]. apply (Hrest more eq_refl).
      * intros [= <-] l Hl.
        assert (Hit : forall l0, l0 = Line depth (v_item it) true \/ In l0 (b :: below) ->
                  exists it0, In it0 (it :: its)
                    /\ Str.startswith "." (name (v_item it0)) = false
                    /\ gitspec_skips self (v_item it0) = Ok false
                    /\ ((node_is_dir (v_node it0) = true
                         /\ exists below0, v_below it0 = Ok below0 /\ below0 <> []
                              /\ (l0 = Line depth (v_item it0) true \/ In l0 below0))
                        \/ (node_is_dir (v_node it0) = false
                            /\ should_include_file self (v_item it0) = true
                            /\ l0 = Line depth (v_item it0) false))).
        { intros l0 Hl0. exists it. split; [left; reflexivity|].
          split; [exact Hh|]. split; [exact Hs|]. left. split; [exact Hd|].
          exists (b :: below). split; [exact Hb|]. split; [discriminate | exact Hl0]. }
        destruct Hl as [<-|Hl]; [apply Hit; left; reflexivity|].
        change (b :: below ++ more) with ((b :: below) ++ more) in Hl.
        apply in_app_or in Hl as [Hl|Hl]; [apply Hit; right; exact Hl|].
        apply (Hrest more eq_refl l Hl).
    + destruct (should_include_file self (v_item it)) eqn:Hi; [|apply Hrest].
      destruct (listing_loop self depth its) as [more|e] eqn:Hm; simpl; [|discriminate].
      intros [= <-] l [<-|Hl].
      * exists it. split; [left; reflexivity|].
        split; [exact Hh|]. split; [exact Hs|]. right. auto.
      * apply (Hrest more eq_refl l Hl).
Qed.

(** What the loop prints for an item it does not skip. *)
Lemma listing_loop_complete depth its ls :
  listing_loop self depth its = Ok ls ->
  forall it, In it its ->
  Str.startswith "." (name (v_item it)) = false ->
  gitspec_skips self (v_item it) = Ok false ->
  (node_is_dir (v_node it) = true ->
   exists below, v_below it = Ok below
     /\ (below <> [] -> In (Line depth (v_item it) true) ls)
     /\ (forall l, In l below -> In l ls))
  /\ (node_is_dir (v_node it) = false ->
      should_include_file self (v_item it) = true ->
      In (Line depth (v_item it) false) ls).
Proof.
  revert ls. induction its as [|it0 its IH]; intros ls Hls it Hin Hh Hs; [destruct Hin|].
  simpl in Hls.
  assert (Hmono : forall more, listing_loop self depth its = Ok more ->
            (forall l, In l more -> In l ls) ->
            In it its ->
            (node_is_dir (v_node it) = true ->
             exists below, v_below it = Ok below
               /\ (below <> [] -> In (Line depth (v_item it) true) ls)
               /\ (forall l, In l below -> In l ls))
            /\ (node_is_dir (v_node it) = false ->
                should_include_file self (v_item it) = true ->
                In (Line depth (v_item it) false) ls)).
  { intros more Hm Hsub Hin'. destruct (IH more Hm it Hin' Hh Hs) as [H1 H2]. split.
    - intros Hd. destruct (H1 Hd) as (below & Hb & Hline & Hall).
      exists below. repeat split; auto.
    - intros Hd Hi. auto. }
  destruct (Str.startswith "." (name (v_item it0))) eqn:Hh0.
  { destruct Hin as [->|Hin]; [congruence|]. apply (Hmono ls Hls); auto. }
  destruct (gitspec_skips self (v_item it0)) as [[|]|e] eqn:Hs0; simpl in Hls;
    [ | | discriminate].
  { destruct Hin as [->|Hin]; [congruence|]. apply (Hmono ls Hls); auto. }
  destruct (node_is_dir (v_node it0)) eqn:Hd0.
  - destruct (v_below it0) as [below|e] eqn:Hb; simpl in Hls; [|discriminate].
    destruct (listing_loop self depth its) as [more|e] eqn:Hm; simpl in Hls; [|discriminate].
    assert (Hsub : forall l, In l more -> In l ls).
    { destruct below as [|b0 below0]; injection Hls as <-; intros l1 Hl1; auto.
      apply in_cons, in_cons, in_or_app. right. exact Hl1. }
    destruct Hin as [->|Hin]; [|apply (Hmono more eq_refl); auto].
    split; [|congruence]. intros _. exists below. split; [exact Hb|].
    destruct below as [|b below]; injection Hls as <-.
    + split; [congruence | intros l []].
    + split; [intros _; left; reflexivity|].
      intros l1 Hl1. apply in_cons.
      change (b :: below ++ more) with ((b :: below) ++ more).
      apply in_or_app. left. exact Hl1.
  - destruct (should_include_file self (v_item it0)) eqn:Hi0.
    + destruct (listing_loop self depth its) as [more|e] eqn:Hm; simpl in Hls; [|discriminate].
      injection Hls as <-.
      destruct Hin as [->|Hin].
      * split; [congruence|]. intros _ _. left. reflexivity.
      * apply (Hmono more eq_refl); auto. intros l Hl. right. exact Hl.
    + destruct Hin as [->|Hin].
      * split; congruence.
      * apply (Hmono ls Hls); auto.
Qed.

Lemma listing_file path r d depth : listing self path (File r d) depth = Raise NotADirectoryError.
Proof. reflexivity. Qed.

Lemma listing_unlistable path es depth : listing self path (Dir false es) depth = Ok [].
Proof. reflexivity. Qed.

(** The lines of [listing] are those of [in_tree]. *)
Lemma listing_in_tree n :
  forall path depth ls, listing self path n depth = Ok ls ->
  forall l, In l ls <-> in_tree self path n depth l.
Proof.
  induction n as [r d | lst es IH] using node_induction; intros path depth ls Hls l.
  - discriminate.
  - destruct lst.
    2:{ injection Hls as <-. split; [intros [] | intros H; inversion H]. }
    rewrite listing_dir in Hls. split.
    + intros Hl.
      destruct (listing_loop_sound _ _ _ Hls l Hl) as (it & Hit & Hh & Hs & Hcase).
      apply in_map_iff in Hit as ([k c] & <- & He). apply In_sorted_entries in He.
      unfold visit_entry in Hh, Hs, Hcase. cbn [v_item v_node v_below fst snd] in *.
      rewrite hidden_child in Hh.
      destruct Hcase as [(Hd & below & Hb & Hne & Hl')|(Hd & Hi & ->)].
      * destruct c as [|l' es']; [discriminate|].
        destruct Hl' as [->|Hl'].
        -- eapply in_tree_dir; eauto.
        -- eapply in_tree_below; eauto.
           rewrite List.Forall_forall in IH. apply (IH (k, Dir l' es') He _ _ _ Hb). exact Hl'.
      * destruct c as [r d|]; [|discriminate]. eapply in_tree_file; eauto.
    + intros Hl. inversion Hl as [p es0 dp k r d He Hh Hs Hi
                                 |p es0 dp k l' es' below He Hh Hs Hb Hne
                                 |p es0 dp k c l0 He Hh Hs Hsub]; subst.
      * assert (Hit : In (visit_entry (fun p c => listing self p c (S depth)) path
                                      (k, File r d))
                         (visit_entry (fun p c => listing self p c (S depth)) path
                            <$> merge_sort (entry_le path) es)).
        { apply in_map. apply In_sorted_entries. exact He. }
        destruct (listing_loop_complete _ _ _ Hls _ Hit) as [_ H2]; cbn [visit_entry v_item v_node fst snd];
          [rewrite hidden_child; exact Hh | exact Hs |].
        apply H2; [reflexivity | exact Hi].
      * assert (Hit : In (visit_entry (fun p c => listing self p c (S depth)) path
                                      (k, Dir l' es'))
                         (visit_entry (fun p c => listing self p c (S depth)) path
                            <$> merge_sort (entry_le path) es)).
        { apply in_map. apply In_sorted_entries. exact He. }
        destruct (listing_loop_complete _ _ _ Hls _ Hit) as [H1 _]; cbn [visit_entry v_item v_node fst snd];
          [rewrite hidden_child; exact Hh | exact Hs |].
        destruct (H1 eq_refl) as (below' & Hb' & Hline & _).
        cbn [visit_entry v_below v_item fst snd] in Hb', Hline.
        rewrite Hb in Hb'. injection Hb' as <-. apply Hline. exact Hne.
      * assert (Hit : In (visit_entry (fun p c => listing self p c (S depth)) path (k, c))
                         (visit_entry (fun p c => listing self p c (S depth)) path
                            <$> merge_sort (entry_le path) es)).
        { apply in_map. apply In_sorted_entries. exact He. }
        destruct (listing_loop_complete _ _ _ Hls _ Hit) as [H1 _]; cbn [visit_entry v_item v_node fst snd];
          [rewrite hidden_child; exact Hh | exact Hs |].
        assert (Hd : node_is_dir c = true) by (inversion Hsub; reflexivity).
        destruct (H1 Hd) as (below' & Hb' & _ & Hall).
        cbn [visit_entry v_below v_item fst snd] in Hb'.
        apply Hall. rewrite List.Forall_forall in IH.
        apply (IH (k, c) He _ _ _ Hb'). exact Hsub.
Qed.

(** *** The rendering of the lines *)

Lemma render_line_nonempty l : render_line l <> "".
Proof.
  unfold render_line, dir_line, file_line. destruct (l_is_dir l); intros H.
  - apply sapp_eq_nil in H as [_ H]. discriminate.
  - apply sapp_eq_nil in H as [_ H]. discriminate.
Qed.

Lemma rendering_empty ls : Str.join Str.lf (map render_line ls) = "" <-> ls = [].
Proof.
  split; [|intros ->; reflexivity].
  destruct ls as [|l ls]; [reflexivity|]. intros H. exfalso.
  revert H. apply join_nonempty. apply render_line_nonempty.
Qed.

Lemma same_text_dir depth item sub below more more_l :
  sub = Str.join Str.lf (map render_line below) ->
  below <> [] ->
  same_text more more_l ->
  same_text (dir_line depth item :: Str.split Str.LF sub ++ more)
            (Line depth item true :: below ++ more_l).
Proof.
  intros Hsub Hne [Hnil Hjoin]. split; [split; discriminate|].
  pose proof (split_nonempty Str.LF sub) as Hsp.
  assert (Hb : map render_line below <> []) by (destruct below; [contradiction|discriminate]).
  cbn [map]. change (render_line (Line depth item true)) with (dir_line depth item).
  rewrite map_app.
  assert (Hrest : Str.join Str.lf (Str.split Str.LF sub ++ more)
                  = Str.join Str.lf (map render_line below ++ map render_line more_l)).
  { destruct more as [|m more].
    - assert (more_l = []) as -> by (apply Hnil; reflexivity).
      cbn [map]. rewrite !List.app_nil_r. unfold Str.lf. rewrite join_split. exact Hsub.
    - assert (Hml : map render_line more_l <> []).
      { destruct more_l; [|discriminate]. destruct Hnil as [_ Hnil].
        specialize (Hnil eq_refl). discriminate. }
      rewrite !join_app by (assumption || discriminate).
      unfold Str.lf at 1. rewrite join_split. rewrite Hjoin, Hsub. reflexivity. }
  destruct (Str.split Str.LF sub ++ more) as [|x xs] eqn:E1.
  { apply List.app_eq_nil in E1 as [E1 _]. contradiction. }
  destruct (map render_line below ++ map render_line more_l) as [|y ys] eqn:E2.
  { apply List.app_eq_nil in E2 as [E2 _]. contradiction. }
  rewrite !join_cons. rewrite Hrest. reflexivity.
Qed.

Lemma same_text_file depth item more more_l :
  same_text more more_l ->
  same_text (file_line depth item :: more) (Line depth item false :: more_l).
Proof.
  intros [Hnil Hjoin]. split; [split; discriminate|].
  cbn [map]. change (render_line (Line depth item false)) with (file_line depth item).
  destruct more as [|m more].
  - assert (more_l = []) as -> by (apply Hnil; reflexivity). reflexivity.
  - destruct more_l as [|m' more_l].
    + destruct Hnil as [_ Hnil]. specialize (Hnil eq_refl). discriminate.
    + cbn [map] in *. rewrite !join_cons. rewrite Hjoin. reflexivity.
Qed.

Lemma structure_loop_rendered path depth (es : list (string * node)) :
  Forall (fun e => rendered self (snd e)) es ->
  match listing_loop self depth
          (visit_entry (fun p c => listing self p c (S depth)) path <$> es) with
  | Ok ls =>
      exists lines,
        structure_loop self depth
          (visit_entry (fun p c => generate_structure self p c (S depth)) path <$> es)
        = Ok lines
        /\ same_text lines ls
  | Raise e =>
      structure_loop self depth
        (visit_entry (fun p c => generate_structure self p c (S depth)) path <$> es)
      = Raise e
  end.
Proof.
  induction 1 as [|[k c] es Hc Hes IH].
  - simpl. exists []. split; [reflexivity|]. split; [tauto | reflexivity].
  - rewrite !fmap_cons. cbn [listing_loop structure_loop visit_entry v_item v_node v_below fst snd].
    destruct (Str.startswith "." (name (child path k))); [exact IH|].
    destruct (gitspec_skips self (child path k)) as [[|]|e]; simpl;
      [exact IH | | reflexivity].
    destruct (node_is_dir c).
    + specialize (Hc (child path k) (S depth)). cbn [snd] in Hc.
      destruct (listing self (child path k) c (S depth)) as [below|e]; rewrite Hc; simpl;
        [|reflexivity].
      destruct (listing_loop self depth _) as [more_l|e].
      * destruct IH as (more & -> & Hmore). simpl.
        destruct (String.eqb_spec (Str.join Str.lf (map render_line below)) "") as [E|E].
        -- apply rendering_empty in E as ->. exists more. split; [reflexivity | exact Hmore].
        -- destruct below as [|b below]; [exfalso; apply E; reflexivity|].
           eexists. split; [reflexivity|].
           apply same_text_dir; [reflexivity | discriminate | exact Hmore].
      * rewrite IH. reflexivity.
    + destruct (should_include_file self (child path k)); [|exact IH].
      destruct (listing_loop self depth _) as [more_l|e].
      * destruct IH as (more & -> & Hmore). simpl.
        eexists. split; [reflexivity|]. apply same_text_file. exact Hmore.
      * rewrite IH. reflexivity.
Qed.

(** [generate_structure] returns the lines of [listing], rendered and
    joined. *)
Lemma generate_structure_listing n : rendered self n.
Proof.
  induction n as [r d | lst es IH] using node_induction; intros path depth.
  - reflexivity.
  - destruct lst; [|reflexivity].
    rewrite listing_dir, generate_structure_dir.
    assert (IH' : Forall (fun e => rendered self (snd e)) (merge_sort (entry_le path) es)).
    { rewrite List.Forall_forall in *. intros e He. apply IH.
      apply In_sorted_entries in He. exact He. }
    pose proof (structure_loop_rendered path depth _ IH') as H.
    destruct (listing_loop self depth _) as [ls|e].
    + destruct H as (lines & -> & _ & Hjoin). simpl. rewrite Hjoin. reflexivity.
    + rewrite H. reflexivity.
Qed.

(** *** The walk never fails once the scanner has a base directory *)

Lemma gitspec_skips_total item : can_match self -> exists b, gitspec_skips self item = Ok b.
Proof.
  unfold gitspec_skips. intros [H|H].
  - rewrite H. eauto.
  - destruct (gitspec self); [|eauto]. destruct (base_dir self); [eauto|contradiction].
Qed.

Lemma listing_loop_total depth its :
  can_match self ->
  (forall it, In it its -> node_is_dir (v_node it) = true -> exists b, v_below it = Ok b) ->
  exists ls, listing_loop self depth its = Ok ls.
Proof.
  intros Hm. induction its as [|it its IH]; intros Hb; [simpl; eauto|].
  destruct IH as [more Hmore]; [intros it' Hi; apply Hb; right; exact Hi|].
  cbn [listing_loop]. destruct (Str.startswith "." _); [eauto|].
  destruct (gitspec_skips_total (v_item it) Hm) as [[|] ->]; simpl; [eauto|].
  destruct (node_is_dir (v_node it)) eqn:Hd.
  - destruct (Hb it (or_introl eq_refl) Hd) as [below ->]. rewrite Hmore. simpl.
    destruct below; eauto.
  - destruct (should_include_file self (v_item it)); [|eauto].
    rewrite Hmore. simpl. eauto.
Qed.

Lemma listing_total n :
  can_match self -> forall path depth, node_is_dir n = true ->
  exists ls, listing self path n depth = Ok ls.
Proof.
  intros Hm.
  induction n as [r d | lst es IH] using node_induction; intros path depth Hd;
    [discriminate|].
  destruct lst; [|eexists; reflexivity].
  rewrite listing_dir. apply listing_loop_total; [exact Hm|].
  intros it Hit Hdir. apply in_map_iff in Hit as ([k c] & <- & He).
  apply In_sorted_entries in He. cbn [visit_entry v_below v_node fst snd] in *.
  rewrite List.Forall_forall in IH. apply (IH (k, c) He). exact Hdir.
Qed.

(** *** Every line stands for an entry the walk comes to *)

Lemma child_app path k rel : child path k ++ rel = path ++ k :: rel.
Proof. unfold child. rewrite <- List.app_assoc. reflexivity. Qed.

Lemma in_tree_walked path n depth l :
  in_tree self path n depth l ->
  exists rel c,
    walked self path n rel c
    /\ l = line_at depth path rel (l_is_dir l)
    /\ ((l_is_dir l = false /\ node_is_dir c = false
         /\ should_include_file self (path ++ rel) = true)
        \/ (l_is_dir l = true /\ node_is_dir c = true
            /\ exists below, listing self (path ++ rel) c (depth + length rel) = Ok below
                             /\ below <> [])).
Proof.
  induction 1 as [path es depth k r d He Hh Hs Hi
                 |path es depth k l' es' below He Hh Hs Hb Hne
                 |path es depth k c l He Hh Hs Hsub IH].
  - exists [k], (File r d). split; [apply walked_entry; assumption|].
    unfold line_at. cbn [length l_is_dir]. replace (depth + 1 - 1) with depth by lia.
    split; [reflexivity|]. left. auto.
  - exists [k], (Dir l' es'). split; [apply walked_entry; assumption|].
    unfold line_at. cbn [length l_is_dir]. replace (depth + 1 - 1) with depth by lia.
    split; [reflexivity|]. right. repeat split; auto.
    exists below. replace (depth + 1) with (S depth) by lia. auto.
  - destruct IH as (rel & c' & Hw & Hl & Hcase).
    exists (k :: rel), c'. split; [eapply walked_down; eassumption|].
    assert (Hrel : rel <> []) by (inversion Hw; discriminate).
    unfold line_at in *. rewrite child_app in Hl, Hcase. cbn [length].
    replace (depth + S (length rel) - 1) with (S depth + length rel - 1)
      by (destruct rel; [contradiction | simpl; lia]).
    split; [exact Hl|].
    replace (depth + S (length rel)) with (S depth + length rel) by lia.
    exact Hcase.
Qed.

Lemma walked_in_tree path n rel c :
  walked self path n rel c ->
  forall depth,
    (node_is_dir c = false -> should_include_file self (path ++ rel) = true ->
     in_tree self path n depth (line_at depth path rel false))
    /\ (node_is_dir c = true ->
        forall below, listing self (path ++ rel) c (depth + length rel) = Ok below ->
        below <> [] ->
        in_tree self path n depth (line_at depth path rel true)
        /\ forall l, In l below -> in_tree self path n depth l).
Proof.
  induction 1 as [path es k c He Hh Hs | path es k c rel c' He Hh Hs Hw IH]; intros depth.
  - unfold line_at. cbn [length]. replace (depth + 1 - 1) with depth by lia.
    replace (depth + 1) with (S depth) by lia. split.
    + intros Hd Hi. destruct c as [r d|]; [|discriminate].
      eapply in_tree_file; eassumption.
    + intros Hd below Hb Hne. destruct c as [|l' es']; [discriminate|]. split.
      * eapply in_tree_dir; eassumption.
      * intros l Hl. eapply in_tree_below; try eassumption.
        apply (listing_in_tree _ _ _ _ Hb). exact Hl.
  - assert (Hrel : rel <> []) by (inversion Hw; discriminate).
    specialize (IH (S depth)). unfold line_at in *. rewrite child_app in IH.
    cbn [length].
    replace (depth + S (length rel) - 1) with (S depth + length rel - 1)
      by (destruct rel; [contradiction | simpl; lia]).
    replace (depth + S (length rel)) with (S depth + length rel) by lia.
    destruct IH as [IH1 IH2]. split.
    + intros Hd Hi. eapply in_tree_below; try eassumption. auto.
    + intros Hd below Hb Hne. destruct (IH2 Hd below Hb Hne) as [H1 H2]. split.
      * eapply in_tree_below; eassumption.
      * intros l Hl. eapply in_tree_below; try eassumption. auto.
Qed.

Lemma walked_nonempty path n rel c : walked self path n rel c -> rel <> [].
Proof. inversion 1; discriminate. Qed.


Lemma walked_reach path n rel c : walked self path n rel c -> reach n rel c.
Proof.
  induction 1.
  - eapply reach_down; [eassumption | apply reach_here].
  - eapply reach_down; eassumption.
Qed.

(** *** In a well-formed tree a path names one entry *)

Lemma entries_functional (es : list (string * node)) k c1 c2 :
  NoDup (map fst es) -> In (k, c1) es -> In (k, c2) es -> c1 = c2.
Proof.
  induction es as [|[k0 c0] es IH]; intros Hnd H1 H2; [destruct H1|].
  inversion Hnd as [|x xs Hnotin Hnd']; subst.
  destruct H1 as [E1|H1], H2 as [E2|H2].
  - congruence.
  - injection E1 as -> ->. exfalso. apply Hnotin, list_elem_of_In.
    apply (in_map fst) in H2. exact H2.
  - injection E2 as -> ->. exfalso. apply Hnotin, list_elem_of_In.
    apply (in_map fst) in H1. exact H1.
  - auto.
Qed.

Lemma wf_entry l es k c : wf_node (Dir l es) -> In (k, c) es -> wf_node c.
Proof.
  intros Hwf He. inversion Hwf as [|l0 es0 _ _ Hall]; subst.
  rewrite List.Forall_forall in Hall. apply (Hall (k, c) He).
Qed.

Lemma wf_entries l es : wf_node (Dir l es) -> NoDup (map fst es).
Proof. inversion 1; assumption. Qed.

Lemma reach_functional n rel c1 c2 :
  wf_node n -> reach n rel c1 -> reach n rel c2 -> c1 = c2.
Proof.
  intros Hwf H1. revert c2 Hwf.
  induction H1 as [n | l es k c rel c' He Hr IH]; intros c2 Hwf H2.
  - inversion H2. reflexivity.
  - inversion H2 as [|l0 es0 k0 c0 rel0 c0' He0 Hr0]; subst.
    assert (c0 = c) as -> by (eapply entries_functional; eauto using wf_entries).
    apply IH; [eapply wf_entry; eassumption | exact Hr0].
Qed.

Lemma walked_split path n rel c :
  wf_node n -> walked self path n rel c ->
  forall rel2 c2, rel2 <> [] -> walked self path n (rel ++ rel2) c2 ->
  walked self (path ++ rel) c rel2 c2.
Proof.
  intros Hwf Hw. revert Hwf.
  induction Hw as [path es k c He Hh Hs | path es k c rel c' He Hh Hs Hw IH];
    intros Hwf rel2 c2 Hne H2.
  - inversion H2 as [p es0 k0 c0 He0 _ _ | p es0 k0 c0 rel0 c0' He0 _ _ Hw0]; subst.
    + exfalso. apply Hne. reflexivity.
    + assert (c0 = c) as -> by (eapply entries_functional; eauto using wf_entries).
      exact Hw0.
  - cbn [app] in H2.
    inversion H2 as [p es0 k0 c0 He0 _ _ | p es0 k0 c0 rel0 c0' He0 _ _ Hw0]; subst.
    + exfalso. match goal with H : [] = rel ++ rel2 |- _ =>
        symmetry in H; apply List.app_eq_nil in H as [_ H]; contradiction end.
    + assert (c0 = c) as -> by (eapply entries_functional; eauto using wf_entries).
      rewrite <- child_app. apply IH; [eapply wf_entry; eassumption | exact Hne | exact Hw0].
Qed.

Lemma is_prefix_spec (b p : list string) :
  is_prefix b p = true <-> exists r, p = b ++ r.
Proof.
  revert p. induction b as [|x b IH]; intros p; simpl.
  - split; [intros _; exists p; reflexivity | reflexivity].
  - destruct p as [|y p]; [split; [discriminate | intros [r Hr]; discriminate]|].
    destruct (String.eqb_spec x y) as [->|Hxy]; simpl.
    + rewrite IH. split; intros [r Hr]; exists r; congruence.
    + split; [discriminate|]. intros [r Hr]. congruence.
Qed.

(** The listing of a directory the walk comes to is computed, and its
    lines are lines of the whole. *)
Lemma walked_listing path n rel c :
  walked self path n rel c ->
  forall depth ls, listing self path n depth = Ok ls ->
  node_is_dir c = true ->
  exists below, listing self (path ++ rel) c (depth + length rel) = Ok below.
Proof.
  induction 1 as [path es k c He Hh Hs | path es k c rel c' He Hh Hs Hw IH];
    intros depth ls Hls Hd.
  - rewrite listing_dir in Hls.
    assert (Hit : In (visit_entry (fun p c => listing self p c (S depth)) path (k, c))
                     (visit_entry (fun p c => listing self p c (S depth)) path
                        <$> merge_sort (entry_le path) es)).
    { apply in_map. apply In_sorted_entries. exact He. }
    destruct (listing_loop_complete _ _ _ Hls _ Hit) as [H1 _];
      cbn [visit_entry v_item v_node fst snd];
      [rewrite hidden_child; exact Hh | exact Hs |].
    destruct (H1 Hd) as (below & Hb & _). exists below.
    cbn [length]. replace (depth + 1) with (S depth) by lia. exact Hb.
  - rewrite listing_dir in Hls.
    assert (Hit : In (visit_entry (fun p c => listing self p c (S depth)) path (k, c))
                     (visit_entry (fun p c => listing self p c (S depth)) path
                        <$> merge_sort (entry_le path) es)).
    { apply in_map. apply In_sorted_entries. exact He. }
    destruct (listing_loop_complete _ _ _ Hls _ Hit) as [H1 _];
      cbn [visit_entry v_item v_node fst snd];
      [rewrite hidden_child; exact Hh | exact Hs |].
    assert (Hdc : node_is_dir c = true) by (inversion Hw; reflexivity).
    destruct (H1 Hdc) as (below1 & Hb1 & _).
    cbn [visit_entry v_below v_item fst snd] in Hb1.
    destruct (IH (S depth) below1 Hb1 Hd) as [below Hb]. exists below.
    rewrite child_app in Hb. cbn [length].
    replace (depth + S (length rel)) with (S depth + length rel) by lia. exact Hb.
Qed.

End Tree.

(** ** Empty directories leave no trace in the tree *)

Section EmptyDirectories.

Import Pathlib FS Scanner.

(** C5.  The tree of a well-formed directory [n] is the rendering of the
    lines [ls], each of which stands for an entry the walk comes to.  For
    every directory [c] the walk comes to, at any depth: its own listing
    [below] is computed; its line is printed exactly when its recursive
    rendering is not the empty string; and when its listing is empty no
    line of the tree lies at or below its path. *)
Theorem empty_directories_are_omitted
        (self : CodeScanner) (path : Path) (n : node) (depth : nat) (ls : list line) :
  wf_node n ->
  listing self path n depth = Ok ls ->
  generate_structure self path n depth = Ok (Str.join Str.lf (map render_line ls))
  /\ (forall l, In l ls ->
       exists rel c, walked self path n rel c /\ l = line_at depth path rel (l_is_dir l))
  /\ (forall rel c,
        walked self path n rel c -> node_is_dir c = true ->
        exists below,
          listing self (path ++ rel) c (depth + length rel) = Ok below
          /\ generate_structure self (path ++ rel) c (depth + length rel)
             = Ok (Str.join Str.lf (map render_line below))
          /\ (In (line_at depth path rel true) ls
              <-> Str.join Str.lf (map render_line below) <> "")
          /\ (below = [] ->
              forall l, In l ls -> is_prefix (path ++ rel) (l_item l) = false)).
Proof.
  intros Hwf Hls. split; [|split].
  - pose proof (generate_structure_listing self n path depth) as H.
    rewrite Hls in H. exact H.
  - intros l Hl. apply (listing_in_tree self n path depth ls Hls) in Hl.
    destruct (in_tree_walked self _ _ _ _ Hl) as (rel & c & Hw & Heq & _). eauto.
  - intros rel c Hw Hd.
    destruct (walked_listing self _ _ _ _ Hw depth ls Hls Hd) as [below Hb].
    exists below. split; [exact Hb|]. split.
    { pose proof (generate_structure_listing self c (path ++ rel) (depth + length rel)) as H.
      rewrite Hb in H. exact H. }
    assert (Hinv : forall l rel' c',
               walked self path n rel' c' -> l = line_at depth path rel' (l_is_dir l) ->
               (l_is_dir l = false /\ node_is_dir c' = false
                /\ should_include_file self (path ++ rel') = true)
               \/ (l_is_dir l = true /\ node_is_dir c' = true
                   /\ exists below', listing self (path ++ rel') c' (depth + length rel')
                                     = Ok below' /\ below' <> []) ->
               forall r, rel' = rel ++ r -> False \/ (r = [] /\ l_is_dir l = true /\ below <> [])
                                          \/ (r <> [] /\ In l below)).
    { intros l rel' c' Hw' Heq Hcase r ->. destruct r as [|k r].
      - rewrite List.app_nil_r in *.
        assert (c' = c) as -> by (eapply reach_functional; eauto using walked_reach).
        destruct Hcase as [(_ & Hf & _)|(Hdl & _ & below' & Hb' & Hne)]; [congruence|].
        right; left. rewrite Hb in Hb'. injection Hb' as <-. auto.
      - right; right. split; [discriminate|].
        assert (Hw2 : walked self (path ++ rel) c (k :: r) c')
          by (apply (walked_split self path n rel c Hwf Hw (k :: r) c');
              [discriminate | exact Hw']).
        destruct (walked_in_tree self _ _ _ _ Hw2 (depth + length rel)) as [Hfile Hdir].
        apply (listing_in_tree self c _ _ _ Hb).
        assert (Hline : l = line_at (depth + length rel) (path ++ rel) (k :: r) (l_is_dir l)).
        { rewrite Heq at 1. unfold line_at. cbn [l_is_dir].
          rewrite List.length_app, <- List.app_assoc. f_equal. cbn [length]. lia. }
        rewrite Hline.
        destruct Hcase as [(Hdl & Hf & Hi)|(Hdl & Hdc & below' & Hb' & Hne)]; rewrite Hdl.
        + apply Hfile; [exact Hf|]. rewrite <- List.app_assoc. exact Hi.
        + assert (Hb2 : listing self ((path ++ rel) ++ k :: r) c'
                                (depth + length rel + length (k :: r)) = Ok below').
          { rewrite <- List.app_assoc, <- Nat.add_assoc, <- List.length_app. exact Hb'. }
          exact (proj1 (Hdir Hdc below' Hb2 Hne)). }
    split; [split|].
    + intros Hl. apply (listing_in_tree self n path depth ls Hls) in Hl.
      destruct (in_tree_walked self _ _ _ _ Hl) as (rel' & c' & Hw' & Heq & Hcase).
      assert (rel' = rel) as Hrel.
      { unfold line_at in Heq. injection Heq as _ Heq. apply app_inv_head in Heq. auto. }
      destruct (Hinv _ rel' c' Hw' Heq Hcase []) as [[]|[(_ & _ & Hne)|(Hne & _)]].
      * rewrite List.app_nil_r. exact Hrel.
      * intros E. apply rendering_empty in E. contradiction.
      * contradiction.
    + intros Hne.
      assert (Hbelow : below <> []) by (intros ->; apply Hne; reflexivity).
      apply (listing_in_tree self n path depth ls Hls).
      exact (proj1 (proj2 (walked_in_tree self _ _ _ _ Hw depth) Hd below Hb Hbelow)).
    + intros -> l Hl. destruct (is_prefix (path ++ rel) (l_item l)) eqn:Hp; [|reflexivity].
      exfalso. apply is_prefix_spec in Hp as [r Hr].
      apply (listing_in_tree self n path depth ls Hls) in Hl.
      destruct (in_tree_walked self _ _ _ _ Hl) as (rel' & c' & Hw' & Heq & Hcase).
      assert (rel' = rel ++ r) as Hrel.
      { rewrite Heq in Hr. unfold line_at in Hr. cbn [l_item] in Hr.
        rewrite <- List.app_assoc in Hr. apply app_inv_head in Hr. exact Hr. }
      destruct (Hinv _ rel' c' Hw' Heq Hcase r Hrel) as [[]|[(_ & _ & Hne)|(_ & [])]].
      apply Hne. reflexivity.
Qed.

End EmptyDirectories.

Ltac prove_valid_name := unfold valid_name; cbn [lacks]; repeat split; discriminate.

Ltac prove_wf :=
  lazymatch goal with
  | |- wf_node (FS.File _ _) => apply wf_file
  | |- wf_node (FS.Dir _ _) =>
      apply wf_dir;
      [ apply (bool_decide_unpack _); vm_compute; exact I
      | cbn [map fst]; repeat (apply List.Forall_cons; [prove_valid_name|]);
        apply List.Forall_nil
      | repeat (apply List.Forall_cons; [cbn [snd]; prove_wf|]); apply List.Forall_nil ]
  end.

Lemma example_proj_wf : wf_node Example.proj.
Proof. unfold Example.proj, Example.file. prove_wf. Qed.

(** The tree of the example project: [empty/e2] holds only a text file, so
    neither [empty] nor [e2] is printed. *)
Lemma empty_directories_are_omitted_witness :
  exists ls,
    Scanner.listing Example.plain Example.proj_path Example.proj 0 = Ok ls
    /\ Scanner.generate_structure Example.plain Example.proj_path Example.proj 0
       = Ok (Str.join Str.lf (map Scanner.render_line ls))
    /\ forall l, In l ls -> Scanner.l_item l <> Example.proj_path ++ ["empty"].
Proof.
  eexists. split; [vm_compute; reflexivity|].
  pose proof (empty_directories_are_omitted Example.plain Example.proj_path Example.proj 0 _
                example_proj_wf eq_refl) as (Hgen & _ & Hdirs).
  split; [exact Hgen|].
  destruct (Hdirs ["empty"] (FS.Dir true [("e2", FS.Dir true [("x.txt", Example.file "")])]))
    as (below & Hb & _ & _ & Hnone).
  - apply walked_entry; [|reflexivity|reflexivity].
    unfold Example.proj. cbn. tauto.
  - reflexivity.
  - intros l Hl E. assert (below = []) as -> by (vm_compute in Hb; congruence).
    specialize (Hnone eq_refl l Hl). rewrite E in Hnone.
    vm_compute in Hnone. discriminate.
Defined.

(** ** The verdict of the filter *)

Section FilterClaims.

Import Pathlib FS Scanner.

(** C3, as amended.  [should_include_file] returns true exactly when the
    four checks pass: (1) the ignore rules, consulted when the scanner has
    both a matcher and a base directory, do not match the key of the path
    (the path relative to the base directory, or the path as given when it
    does not lie below it); (2) the extension is a member of the allowed
    set, by equality of strings; (3) no exclude pattern is a substring of
    the path string; (4) no exclude extension is a suffix of the path
    string.  The extension is the text after the last dot of the name when
    that dot is neither the first nor the last character of the name, and
    the empty string otherwise. *)
Theorem should_include_file_iff (self : CodeScanner) (file_path : Path) :
  (should_include_file self file_path = true <->
   (forall spec base, gitspec self = Some spec -> base_dir self = Some base ->
                      Pathspec.match_file spec (match_key base file_path) = false)
   /\ extension file_path ∈ extensions self
   /\ (forall pattern, pattern ∈ exclude_patterns self ->
                       ~ has_substring pattern (str file_path))
   /\ (forall ext_pattern, ext_pattern ∈ exclude_extensions self ->
                           ~ has_suffix ext_pattern (str file_path)))
  /\ ((exists stem e, name file_path = stem +:+ "." +:+ e /\ stem <> "" /\ e <> ""
                      /\ lacks "." e /\ extension file_path = e)
      \/ (extension file_path = ""
          /\ (lacks "." (name file_path)
              \/ (exists e, name file_path = "." +:+ e /\ lacks "." e)
              \/ (exists stem, name file_path = stem +:+ ".")))).
Proof.
  split; [|apply extension_cases].
  rewrite should_include_file_true, gitspec_excludes_false. reflexivity.
Qed.

(** C3, as stated, fails on a dot file: the text after the last dot of
    [.env] is [env], an allowed extension, and no other check applies, yet
    the file is excluded, because [pathlib] gives [.env] no suffix. *)
Lemma dot_file_has_no_extension :
  let file_path := Example.proj_path ++ [".env"] in
  spec_extension file_path = "env"
  /\ spec_extension file_path ∈ extensions Example.only_env
  /\ gitspec Example.only_env = None
  /\ exclude_patterns Example.only_env = ∅
  /\ exclude_extensions Example.only_env = ∅
  /\ extension file_path = ""
  /\ should_include_file Example.only_env file_path = false.
Proof.
  cbv zeta. repeat split; reflexivity.
Qed.

End FilterClaims.

(** ** The content walker *)

Section Content.

Import Pathlib FS Scanner.

Lemma In_sorted (l : list Path) f : In f (sorted l) <-> In f l.
Proof. rewrite <- !list_elem_of_In. rewrite sorted_perm. reflexivity. Qed.

Lemma In_code_files w self files f :
  In f (code_files w self files)
  <-> In f files /\ is_file w f = true /\ should_include_file self f = true.
Proof.
  unfold code_files. rewrite In_sorted, filter_In, andb_true_iff. reflexivity.
Qed.

Lemma In_omap {A B} (g : A -> option B) (l : list A) b :
  In b (omap g l) <-> exists a, In a l /\ g a = Some b.
Proof.
  rewrite <- list_elem_of_In, list_elem_of_omap.
  split; intros (a & Ha & Hg); exists a; split; auto; apply list_elem_of_In; exact Ha.
Qed.

Lemma In_blocks w self dp files b :
  In b (blocks w self dp files)
  <-> exists f, In f (code_files w self files) /\ read_block w dp f = Some b.
Proof. apply In_omap. Qed.

Lemma relative_to_Some f dp rel : relative_to f dp = Some rel -> f = dp ++ rel.
Proof.
  unfold relative_to. destruct dp as [|x dp].
  - destruct (is_absolute f); [discriminate|]. intros [= ->]. reflexivity.
  - destruct (is_prefix (x :: dp) f) eqn:E; [|discriminate]. intros [= <-].
    apply is_prefix_spec in E as [r ->].
    change (S (length dp)) with (length (x :: dp)).
    rewrite drop_app_length. reflexivity.
Qed.

Lemma read_block_Some w dp f b :
  read_block w dp f = Some b ->
  relative_to f dp = Some (b_path b) /\ read_text w f = Some (b_content b)
  /\ b_tag b = extension f.
Proof.
  unfold read_block. destruct (read_text w f) as [t|]; [|discriminate]. simpl.
  destruct (relative_to f dp) as [r|]; [|discriminate]. simpl.
  intros [= <-]. auto.
Qed.

Lemma StronglySorted_omap {A B} (R : relation A) (R' : relation B) (g : A -> option B) l :
  (forall x y a b, R x y -> g x = Some a -> g y = Some b -> R' a b) ->
  StronglySorted R l -> StronglySorted R' (omap g l).
Proof.
  intros Hg. induction 1 as [|x l Hl IH Hx]; simpl; [constructor|].
  destruct (g x) as [a|] eqn:Ea; [|exact IH].
  constructor; [exact IH|].
  rewrite List.Forall_forall in *. intros b Hb.
  apply In_omap in Hb as (y & Hy & Eb). eauto.
Qed.

Lemma code_files_permutation w self files files' :
  files ≡ₚ files' -> code_files w self files' = code_files w self files.
Proof.
  intros HP. unfold code_files. apply sorted_permutation_invariant.
  symmetry. clear -HP. induction HP; simpl.
  - reflexivity.
  - destruct (is_file w x && should_include_file self x); [constructor|]; exact IHHP.
  - destruct (is_file w x && should_include_file self x),
             (is_file w y && should_include_file self y);
      try reflexivity. apply perm_swap.
  - etransitivity; eassumption.
Qed.

End Content.

(** ** Files without an extension *)

Section Extensionless.

Import Pathlib FS Scanner.

Lemma default_extensions_nonempty : "" ∉ default_extensions.
Proof. apply (bool_decide_unpack _). vm_compute. exact I. Qed.

Lemma included_has_extension self file_path :
  "" ∉ extensions self -> should_include_file self file_path = true ->
  ~ lacks "." (name file_path).
Proof.
  intros Hdef Hi Hl. apply should_include_file_true in Hi as (_ & Hext & _).
  rewrite (extension_no_dot _ Hl) in Hext. contradiction.
Qed.

(** C9.  A path whose name has no dot has the empty extension, so
    [should_include_file] returns false whenever the empty string is not an
    allowed extension.  Under the default extensions, then, every file line
    of the tree and every block of the content is for a file whose name has
    a dot. *)
Theorem extensionless_files_are_excluded (self : CodeScanner) :
  (forall file_path,
      lacks "." (name file_path) -> "" ∉ extensions self ->
      extension file_path = "" /\ should_include_file self file_path = false)
  /\ (extensions self = default_extensions ->
      (forall path n depth ls,
          listing self path n depth = Ok ls ->
          generate_structure self path n depth = Ok (Str.join Str.lf (map render_line ls))
          /\ forall l, In l ls -> l_is_dir l = false -> ~ lacks "." (name (l_item l)))
      /\ (forall w directory_path files b,
             In b (blocks w self directory_path files) ->
             exists f, In f files /\ read_block w directory_path f = Some b
                       /\ ~ lacks "." (name f))).
Proof.
  split; [|intros Hdef; split].
  - intros file_path Hl Hnot. split; [apply extension_no_dot; exact Hl|].
    destruct (should_include_file self file_path) eqn:E; [|reflexivity].
    exfalso. exact (included_has_extension self file_path Hnot E Hl).
  - intros path n depth ls Hls. split.
    { pose proof (generate_structure_listing self n path depth) as H.
      rewrite Hls in H. exact H. }
    intros l Hl Hfile.
    apply (listing_in_tree self n path depth ls Hls) in Hl.
    destruct (in_tree_walked self _ _ _ _ Hl) as (rel & c & _ & Heq & Hcase).
    destruct Hcase as [(_ & _ & Hi)|(Hd & _)]; [|congruence].
    rewrite Heq. cbn [line_at l_item].
    apply (included_has_extension self); [|exact Hi].
    rewrite Hdef. apply default_extensions_nonempty.
  - intros w directory_path files b Hb.
    apply In_blocks in Hb as (f & Hf & Hread).
    apply In_code_files in Hf as (Hin & _ & Hi).
    exists f. repeat split; auto.
    apply (included_has_extension self); [|exact Hi].
    rewrite Hdef. apply default_extensions_nonempty.
Qed.

(** In the example project, [Makefile] passes no filter of the default
    scanner. *)
Lemma extensionless_files_are_excluded_witness :
  lacks "." (name (Example.proj_path ++ ["Makefile"]))
  /\ ("" ∉ extensions Example.plain)
  /\ should_include_file Example.plain (Example.proj_path ++ ["Makefile"]) = false.
Proof.
  assert (H1 : lacks "." (name (Example.proj_path ++ ["Makefile"])))
    by (cbn; repeat split; discriminate).
  assert (H2 : "" ∉ extensions Example.plain) by apply default_extensions_nonempty.
  split; [exact H1|]. split; [exact H2|].
  exact (proj2 (proj1 (extensionless_files_are_excluded Example.plain) _ H1 H2)).
Defined.

End Extensionless.

(** ** [scan_directory]: errors and effects *)

Section Scan.

Import Pathlib FS Scanner.

(** C8.  When the root does not exist, [scan_directory] raises the
    [ValueError] of line 115: nothing is returned, the scanner is as it was,
    and the only question asked of the file system is whether the root
    exists; no tree is walked, nothing is enumerated, no file is opened. *)
Theorem missing_root_is_an_error
        (w : world) (self : CodeScanner) (directory : string) (recursive : bool) :
  path_exists w (of_string directory) = false ->
  scan_directory w self directory recursive
  = Outcome (Raise (ValueError ("Directory " +:+ directory +:+ " does not exist")))
            self
            [EvExists (of_string directory)].
Proof.
  unfold path_exists, scan_directory.
  destruct (stat w (of_string directory)); [discriminate | reflexivity].
Qed.

Lemma missing_root_is_an_error_witness :
  path_exists (Example.disk None) (of_string "/w/nowhere") = false
  /\ returned (scan_directory (Example.disk None) Example.plain "/w/nowhere" true)
     = Raise (ValueError "Directory /w/nowhere does not exist")
  /\ events (scan_directory (Example.disk None) Example.plain "/w/nowhere" true)
     = [EvExists ["/"; "w"; "nowhere"]].
Proof.
  split; [reflexivity|].
  rewrite (missing_root_is_an_error (Example.disk None) Example.plain "/w/nowhere" true eq_refl).
  split; reflexivity.
Defined.

(** C10.  Whether it returns or raises, [scan_directory] leaves every
    attribute of the scanner as it was, except [base_dir], which is the
    resolved root once the root has been found to exist. *)
Theorem scan_directory_frame
        (w : world) (self : CodeScanner) (directory : string) (recursive : bool) :
  let self' := after (scan_directory w self directory recursive) in
  extensions self' = extensions self
  /\ exclude_patterns self' = exclude_patterns self
  /\ exclude_extensions self' = exclude_extensions self
  /\ gitspec self' = gitspec self
  /\ no_structure self' = no_structure self
  /\ base_dir self' = (if path_exists w (of_string directory)
                       then Some (resolve w (of_string directory))
                       else base_dir self).
Proof.
  unfold scan_directory, path_exists.
  destruct (stat w (of_string directory)) as [n|]; [|cbn; auto 10].
  cbv zeta.
  destruct (structure_section _ _ n); cbn; auto 10.
Qed.

End Scan.

(** ** The default ignore file *)

Section DefaultGitignore.

Import Pathlib FS Scanner.

Lemma is_absolute_app p q : is_absolute p = true -> is_absolute (p ++ q) = true.
Proof. destruct p; [discriminate | exact id]. Qed.

(** A relative path is looked up from the working directory. *)
Lemma stat_relative w p :
  is_absolute (cwd w) = true -> is_absolute p = false ->
  stat w p = stat w (cwd w ++ p).
Proof.
  intros Hc Hp. unfold stat, absolute. rewrite Hp, (is_absolute_app _ p Hc). reflexivity.
Qed.

(** C2, as amended.  Without explicit rule files ([None] or an empty list)
    and with discovery enabled, the rules come from the file [.gitignore]
    of the working directory of the process, as it is when the scanner is
    constructed; the directory scanned later plays no part.  When that file
    does not exist, cannot be read or has no line, no rule is loaded. *)
Theorem default_gitignore_is_in_the_working_directory
        (w : world) (extensions_arg exclude_patterns_arg exclude_extensions_arg
                     : option (gset string))
        (gitignore_files : option (list string)) :
  is_absolute (cwd w) = true ->
  gitignore_files = None \/ gitignore_files = Some [] ->
  let self := fresh extensions_arg exclude_patterns_arg exclude_extensions_arg in
  let default_file := cwd w ++ [".gitignore"] in
  gitspec self = None
  /\ init w extensions_arg exclude_patterns_arg exclude_extensions_arg gitignore_files false
     = match read_text w default_file with
       | Some text =>
           match lines text with
           | [] => Ok self
           | patterns => spec ← Pathspec.from_lines patterns; Ok (set_gitspec self spec)
           end
       | None => Ok self
       end
  /\ (path_exists w default_file = false -> read_text w default_file = None).
Proof.
  intros Hc Hfiles self default_file. split; [reflexivity|]. split.
  - unfold init. cbn [negb]. fold self. unfold load_gitignore.
    assert (Hpatterns :
              match gitignore_files with
              | Some ((_ :: _) as files) =>
                  concat (map (fun gitignore_path =>
                                 default [] (open_readlines w gitignore_path)) files)
              | _ => if path_exists w (of_string ".gitignore")
                     then default [] (open_readlines w ".gitignore") else []
              end
              = match read_text w default_file with
                | Some text => lines text
                | None => []
                end).
    { assert (Hdef : (if path_exists w (of_string ".gitignore")
                      then default [] (open_readlines w ".gitignore") else [])
                     = match read_text w default_file with
                       | Some text => lines text
                       | None => []
                       end).
      { change (of_string ".gitignore") with [".gitignore"].
        unfold open_readlines. change (Str.endswith "/" ".gitignore") with false.
        change (kernel_path ".gitignore") with [".gitignore"].
        unfold path_exists, readlines, read_text.
        rewrite (stat_relative w [".gitignore"] Hc eq_refl). fold default_file.
        destruct (stat w default_file) as [[[|] data|]|]; try reflexivity.
        destruct (utf8_valid data); reflexivity. }
      destruct Hfiles as [-> | ->]; exact Hdef. }
    rewrite Hpatterns.
    destruct (read_text w default_file) as [text|]; [|reflexivity].
    destruct (lines text); reflexivity.
  - unfold path_exists, read_text. destruct (stat w default_file); [discriminate|reflexivity].
Qed.

(** On the example disk the rules of [/w/.gitignore] are loaded. *)
Lemma default_gitignore_is_in_the_working_directory_witness :
  is_absolute (cwd (Example.disk (Some Example.rules_sub_last))) = true
  /\ exists self,
      init (Example.disk (Some Example.rules_sub_last)) None None None None false = Ok self
      /\ gitspec self <> None.
Proof.
  split; [reflexivity|].
  destruct (default_gitignore_is_in_the_working_directory
              (Example.disk (Some Example.rules_sub_last)) None None None None
              eq_refl (or_introl eq_refl)) as (_ & Hinit & _).
  match type of Hinit with
  | _ = ?rhs => let v := eval vm_compute in rhs in change rhs with v in Hinit
  end.
  eexists. split; [exact Hinit | discriminate].
Defined.

(** C2, as stated, fails both ways.  The project [/w/proj] has no
    [.gitignore], yet the scanner built in [/w] loads the rule of
    [/w/.gitignore] and a scan of [/w/proj] yields no block.  And a
    [.gitignore] at the root of the scanned project is not read when the
    working directory has none: its rule [*.py] does not keep [a.py] out. *)
Lemma default_gitignore_is_not_in_the_scanned_root :
  (let w := Example.disk (Some ("*.py" +:+ Str.lf)) in
   exists self,
     init w None None None None false = Ok self
     /\ path_exists w (of_string "/w/proj/.gitignore") = false
     /\ gitspec self <> None
     /\ blocks w (after (scan_directory w self "/w/proj" true)) Example.proj_path
               (enumerate Example.proj_path Example.proj true) = [])
  /\ (let w := Example.disk_rules_in_project in
      exists self,
        init w None None None None false = Ok self
        /\ read_text w (of_string "/w/proj/.gitignore") = Some ("*.py" +:+ Str.lf)
        /\ gitspec self = None
        /\ returned (scan_directory w self "/w/proj" true)
           = Ok (Str.join Str.lf
                   [ "# Repository Structure"; "* a.py"; "";
                     "# a.py"; "```py"; "x=1"; "```"; "" ])).
Proof.
  split; cbv zeta.
  - eexists. split; [vm_compute; reflexivity|].
    split; [reflexivity|]. split; [discriminate|]. vm_compute. reflexivity.
  - eexists. split; [vm_compute; reflexivity|].
    split; [reflexivity|]. split; [reflexivity|]. vm_compute. reflexivity.
Qed.

End DefaultGitignore.

(** ** Negation and the order of the rules *)

Section Negation.

Import Pathlib FS Scanner Pathspec.

Lemma check_match_file_app pre post file o :
  check_match_file (pre ++ post) file o
  = check_match_file post file (check_match_file pre file o).
Proof.
  revert o. induction pre as [|p pre IH]; intros o; [reflexivity|].
  simpl. apply IH.
Qed.

Lemma check_match_file_undecided post file o :
  undecided post file -> check_match_file post file o = o.
Proof.
  revert o. induction post as [|q post IH]; intros o Hu; [reflexivity|].
  simpl. rewrite IH by (intros q' Hq'; apply Hu; right; exact Hq').
  destruct (include q) as [i|] eqn:Ei; [|reflexivity].
  rewrite (Hu q (or_introl eq_refl)) by congruence. reflexivity.
Qed.

Lemma check_match_file_last pre p post file o i :
  include p = Some i -> pattern_matches p file = true -> undecided post file ->
  check_match_file (pre ++ p :: post) file o = Some i.
Proof.
  intros Hi Hm Hu. rewrite check_match_file_app. simpl.
  rewrite Hi, Hm. apply check_match_file_undecided. exact Hu.
Qed.

Lemma check_match_file_Some spec file o i :
  check_match_file spec file o = Some i ->
  (o = Some i /\ undecided spec file)
  \/ exists pre p post,
      spec = pre ++ p :: post /\ include p = Some i
      /\ pattern_matches p file = true /\ undecided post file.
Proof.
  revert o. induction spec as [|p spec IH]; intros o H.
  - left. split; [exact H | intros q []].
  - simpl in H. destruct (IH _ H) as [[Ho Hu]|(pre & p' & post & -> & Hi & Hm & Hu)].
    + destruct (include p) as [j|] eqn:Ej.
      * destruct (pattern_matches p file) eqn:Em.
        -- right. exists [], p, spec. repeat split; auto. congruence.
        -- left. split; [exact Ho|]. intros q [<-|Hq] Hq'; auto.
      * left. split; [exact Ho|]. intros q [<-|Hq] Hq'; [congruence | auto].
    + right. exists (p :: pre), p', post. auto.
Qed.

(** The verdict of [match_file] is that of the last pattern that matches. *)
Lemma match_file_last spec file :
  match_file spec file = true <->
  exists pre p post,
    spec = pre ++ p :: post /\ include p = Some true
    /\ pattern_matches p (normalize_file file) = true
    /\ undecided post (normalize_file file).
Proof.
  unfold match_file. split.
  - destruct (check_match_file spec (normalize_file file) None) as [[|]|] eqn:E;
      try discriminate.
    intros _. destruct (check_match_file_Some _ _ _ _ E) as [[Ho _]|H]; [discriminate|exact H].
  - intros (pre & p & post & -> & Hi & Hm & Hu).
    rewrite (check_match_file_last pre p post _ None true Hi Hm Hu). reflexivity.
Qed.

(** C1, as amended.  The verdict for a path is that of the last rule that
    matches it.  So a path whose last matching rule is a negation is not
    ignored, whatever the rules before it exclude, an ancestor directory
    included; a rule that excludes the ancestor prevails when it comes after
    the negation.  With the rules [*.py], [!important.py], [sub/] in this
    order, the top-level [important.py] is included and [sub/important.py]
    is not. *)
Theorem last_matching_rule_decides :
  (forall spec file,
      match_file spec file = true <->
      exists pre p post,
        spec = pre ++ p :: post /\ include p = Some true
        /\ pattern_matches p (normalize_file file) = true
        /\ undecided post (normalize_file file))
  /\ (forall pre p post file,
         include p = Some false ->
         pattern_matches p (normalize_file file) = true ->
         undecided post (normalize_file file) ->
         match_file (pre ++ p :: post) file = false)
  /\ (let w := Example.disk (Some Example.rules_sub_last) in
      exists self spec,
        init w None None None None false = Ok self
        /\ gitspec self = Some spec
        /\ Pathspec.from_lines ["*.py"; "!important.py"; "sub/"] = Ok spec
        /\ match_file spec "important.py" = false
        /\ match_file spec "sub/important.py" = true
        /\ map b_path (blocks w (after (scan_directory w self "/w/proj" true))
                              Example.proj_path
                              (enumerate Example.proj_path Example.proj true))
           = [["important.py"]]).
Proof.
  split; [exact match_file_last|]. split.
  - intros pre p post file Hi Hm Hu. unfold match_file.
    rewrite (check_match_file_last pre p post _ None false Hi Hm Hu). reflexivity.
  - cbv zeta. eexists. eexists. split; [vm_compute; reflexivity|].
    split; [reflexivity|]. repeat split; vm_compute; reflexivity.
Qed.

(** C1, as stated, fails when the rule for [sub/] comes first.  The path
    [sub/important.py] is excluded by the earlier rules and matched by the
    later negation; its ancestor [sub/] is excluded by the rule set, and so
    is everything else below it; yet the path is not ignored, and a scan
    puts [sub/important.py] in the content. *)
Lemma negation_overrides_an_excluded_ancestor :
  let w := Example.disk (Some Example.rules_sub_first) in
  exists self spec earlier negation,
    init w None None None None false = Ok self
    /\ gitspec self = Some spec
    /\ Pathspec.from_lines ["sub/"; "*.py"; "!important.py"] = Ok spec
    /\ spec = earlier ++ [negation]
    /\ match_file earlier "sub/important.py" = true
    /\ include negation = Some false
    /\ pattern_matches negation "sub/important.py" = true
    /\ match_file spec "sub/" = true
    /\ match_file spec "sub/c.py" = true
    /\ match_file spec "sub/important.py" = false
    /\ should_include_file (after (scan_directory w self "/w/proj" true))
                           (Example.proj_path ++ ["sub"; "important.py"]) = true
    /\ map b_path (blocks w (after (scan_directory w self "/w/proj" true))
                          Example.proj_path
                          (enumerate Example.proj_path Example.proj true))
       = [["important.py"]; ["sub"; "important.py"]].
Proof.
  cbv zeta.
  destruct (Pathspec.from_lines ["sub/"; "*.py"; "!important.py"]) as [spec|e] eqn:E;
    [|vm_compute in E; discriminate].
  vm_compute in E. injection E as <-.
  eexists. eexists. eexists (_ :: _ :: nil). eexists.
  split; [vm_compute; reflexivity|].
  split; [reflexivity|]. split; [reflexivity|]. split; [reflexivity|].
  repeat split; vm_compute; reflexivity.
Qed.

End Negation.

(** ** What the enumeration yields *)

Section Enumeration.

Import Pathlib FS Scanner.

Lemma rglob_star_dir dp es :
  rglob_star dp (Dir true es)
  = children dp es ++ concat (map (fun e => rglob_star (child dp (fst e)) (snd e)) es).
Proof.
  cbn [rglob_star]. f_equal.
  induction es as [|[k c] es IH]; [reflexivity|].
  cbn [map concat fst snd]. rewrite <- IH. reflexivity.
Qed.

Lemma In_children dp es f : In f (children dp es) <-> exists k c, In (k, c) es /\ f = child dp k.
Proof.
  unfold children. rewrite in_map_iff. split.
  - intros ([k c] & <- & He). eauto.
  - intros (k & c & He & ->). exists (k, c). auto.
Qed.


Lemma rglob_listed n : forall dp f,
  In f (rglob_star dp n) -> exists rel c, listed n rel c /\ f = dp ++ rel.
Proof.
  induction n as [r d | lst es IH] using node_induction; intros dp f Hf; [destruct Hf|].
  destruct lst; [|destruct Hf].
  rewrite rglob_star_dir in Hf. apply in_app_or in Hf as [Hf|Hf].
  - apply In_children in Hf as (k & c & He & ->). exists [k], c.
    split; [apply listed_entry; exact He | reflexivity].
  - apply in_concat in Hf as (l & Hl & Hf).
    apply in_map_iff in Hl as ([k c] & <- & He). cbn [fst snd] in Hf.
    rewrite List.Forall_forall in IH.
    destruct (IH (k, c) He _ _ Hf) as (rel & c' & Hlisted & ->).
    exists (k :: rel), c'. split; [eapply listed_down; eassumption | apply child_app].
Qed.


Lemma listed_reach n rel c : listed n rel c -> reach n rel c.
Proof.
  induction 1.
  - eapply reach_down; [eassumption | apply reach_here].
  - eapply reach_down; eassumption.
Qed.





End Enumeration.

(** ** Looking up what the enumeration yields *)

Section Lookup.

Import Pathlib FS Scanner.

Lemma walk_app st cur a b :
  walk st cur (a ++ b)
  = match walk st cur a with
    | Some (st', cur') => walk st' cur' b
    | None => None
    end.
Proof.
  revert st cur. induction a as [|x a IH]; intros st cur; [reflexivity|].
  cbn [app walk]. destruct cur as [|l es]; [reflexivity|].
  destruct (String.eqb x "."); [apply IH|].
  destruct (String.eqb x "..").
  - destruct st; apply IH.
  - destruct (assoc x es); [apply IH | reflexivity].
Qed.

Lemma assoc_In es k c : NoDup (map fst es) -> In (k, c) es -> assoc k es = Some c.
Proof.
  induction es as [|[k0 c0] es IH]; intros Hnd He; [destruct He|].
  cbn [map fst] in Hnd. apply NoDup_cons in Hnd as [Hk Hnd]. cbn [assoc].
  destruct (String.eqb_spec k0 k) as [->|Hne].
  - destruct He as [E|He]; [congruence|].
    exfalso. apply Hk, list_elem_of_In. apply (in_map fst) in He. exact He.
  - destruct He as [E|He]; [congruence | auto].
Qed.

Lemma valid_name_not_dotdot k : valid_name k -> String.eqb k ".." = false.
Proof. intros (_ & _ & H & _). apply String.eqb_neq. exact H. Qed.

Lemma valid_name_not_dot k : valid_name k -> String.eqb k "." = false.
Proof. intros (_ & H & _). apply String.eqb_neq. exact H. Qed.

Lemma valid_name_not_root k : valid_name k -> is_root k = false.
Proof.
  intros (_ & _ & _ & H). unfold is_root.
  destruct (String.eqb_spec k "/") as [->|_]; [cbn in H; tauto|].
  destruct (String.eqb_spec k "//") as [->|_]; [cbn in H; tauto | reflexivity].
Qed.

Lemma wf_entry_name l es k c : wf_node (Dir l es) -> In (k, c) es -> valid_name k.
Proof.
  intros Hwf He. inversion Hwf as [|l0 es0 _ Hnames _]; subst.
  rewrite List.Forall_forall in Hnames. apply Hnames. apply (in_map fst) in He. exact He.
Qed.

Lemma walk_reach n rel c :
  wf_node n -> reach n rel c -> forall st, exists st', walk st n rel = Some (st', c).
Proof.
  intros Hwf Hr. revert Hwf.
  induction Hr as [n | l es k c rel c' He Hr IH]; intros Hwf st; [simpl; eauto|].
  cbn [walk].
  rewrite (valid_name_not_dot k (wf_entry_name _ _ _ _ Hwf He)).
  rewrite (valid_name_not_dotdot k (wf_entry_name _ _ _ _ Hwf He)).
  rewrite (assoc_In es k c (wf_entries _ _ Hwf) He).
  apply IH. eapply wf_entry; eassumption.
Qed.

Lemma absolute_app w dp k rel :
  is_root k = false -> absolute w (dp ++ k :: rel) = absolute w dp ++ k :: rel.
Proof.
  intros Hk. unfold absolute. destruct dp as [|x dp].
  - cbn [app is_absolute]. rewrite Hk, List.app_nil_r. reflexivity.
  - cbn [app is_absolute]. destruct (is_root x); [reflexivity|].
    rewrite <- List.app_assoc. reflexivity.
Qed.

(** What the file system holds at an enumerated path is the entry found
    in the tree. *)
Lemma stat_reach w dp n rel c :
  stat w dp = Some n -> wf_node n -> reach n rel c -> stat w (dp ++ rel) = Some c.
Proof.
  intros Hs Hwf Hr. destruct rel as [|k rel].
  - inversion Hr; subst. rewrite List.app_nil_r. exact Hs.
  - assert (Hk : valid_name k).
    { inversion Hr; subst. eapply wf_entry_name; eassumption. }
    unfold stat in *. rewrite (absolute_app w dp k rel (valid_name_not_root k Hk)).
    destruct (absolute w dp) as [|r rest]; [discriminate|].
    cbn [app]. rewrite walk_app.
    destruct (walk [] (root w) rest) as [[st n']|]; [|discriminate].
    cbn in Hs. injection Hs as ->.
    destruct (walk_reach n (k :: rel) c Hwf Hr st) as [st' ->]. reflexivity.
Qed.

Lemma relative_to_app dp rel :
  is_absolute rel = false -> relative_to (dp ++ rel) dp = Some rel.
Proof.
  intros Hrel. unfold relative_to. destruct dp as [|x dp].
  - cbn [app]. rewrite Hrel. reflexivity.
  - assert (E : is_prefix (x :: dp) ((x :: dp) ++ rel) = true)
      by (apply is_prefix_spec; eauto).
    rewrite E. rewrite drop_app_length. reflexivity.
Qed.

Lemma listed_relative n rel c : wf_node n -> listed n rel c -> is_absolute rel = false.
Proof.
  intros Hwf Hl. inversion Hl; subst; cbn [is_absolute];
    apply valid_name_not_root; eapply wf_entry_name; eassumption.
Qed.







(** Once the root is found to be a directory, [scan_directory] returns:
    the section of the tree, then the blocks, joined by newlines. *)
Lemma scan_directory_returns w self directory recursive n :
  stat w (of_string directory) = Some n ->
  node_is_dir n = true ->
  let dp := of_string directory in
  let self' := set_base_dir self (resolve w dp) in
  exists merged_content,
    structure_section self' dp n = Ok merged_content
    /\ after (scan_directory w self directory recursive) = self'
    /\ returned (scan_directory w self directory recursive)
       = Ok (Str.join Str.lf
               (merged_content
                  ++ concat (map render_block
                                 (blocks w self' dp (enumerate dp n recursive))))).
Proof.
  intros Hs Hd dp self'.
  assert (Hstruct : exists merged, structure_section self' dp n = Ok merged).
  { unfold structure_section. destruct (no_structure self'); [eauto|].
    assert (Hcm : can_match self') by (right; unfold self'; cbn; discriminate).
    destruct (listing_total self' n Hcm dp 0 Hd) as [ls Hls].
    pose proof (generate_structure_listing self' n dp 0) as Hg. rewrite Hls in Hg.
    rewrite Hg. cbn. eauto. }
  destruct Hstruct as [merged Hm]. exists merged. split; [exact Hm|].
  unfold self', dp in *. clear self' dp.
  unfold scan_directory. cbv zeta. rewrite Hs, Hm.
  split; reflexivity.
Qed.

End Lookup.


(** ** The round trip of a file, and hidden files *)

Section RoundTrip.

Import Pathlib FS Scanner.







End RoundTrip.


(** ** The order of the blocks *)

Section Order.

Import Pathlib FS Scanner.

(** Paths are compared part by part, which is not the order of their
    strings when a name holds a character below the slash. *)
Lemma path_order_is_by_parts :
  Pathlib.leb ["a"; "b.py"] ["a-b"; "x.py"] = true
  /\ Str.leb (str ["a"; "b.py"]) (str ["a-b"; "x.py"]) = false.
Proof. split; reflexivity. Qed.

(** C6.  Whatever list [files] the enumeration of the directory yields:
    the files read are sorted by their full path, the blocks follow in that
    order, so that their relative paths are sorted too; and any other order
    of the same enumeration gives the same files and the same blocks.  The
    output of [scan_directory] is the section of the tree followed by these
    blocks, rendered and joined. *)
Theorem aggregation_is_sorted
        (w : world) (self : CodeScanner) (directory_path : Path) (files : list Path) :
  StronglySorted Pathlib.le (code_files w self files)
  /\ blocks w self directory_path files
     = omap (read_block w directory_path) (code_files w self files)
  /\ StronglySorted Pathlib.le (map b_path (blocks w self directory_path files))
  /\ (forall files', files ≡ₚ files' ->
        code_files w self files' = code_files w self files
        /\ blocks w self directory_path files' = blocks w self directory_path files)
  /\ (forall directory recursive n,
        stat w (of_string directory) = Some n -> node_is_dir n = true ->
        exists merged_content,
          returned (scan_directory w self directory recursive)
          = Ok (Str.join Str.lf
                  (merged_content
                     ++ concat (map render_block
                                    (blocks w (set_base_dir self
                                                 (resolve w (of_string directory)))
                                            (of_string directory)
                                            (enumerate (of_string directory) n
                                                       recursive)))))).
Proof.
  split; [apply sorted_strongly|]. split; [reflexivity|]. split; [|split].
  - unfold blocks.
    assert (H : StronglySorted (fun a b => Pathlib.le (b_path a) (b_path b))
                  (omap (read_block w directory_path) (code_files w self files))).
    { apply (StronglySorted_omap Pathlib.le); [|apply sorted_strongly].
      intros x y a b Hxy Ha Hb.
      apply read_block_Some in Ha as (Ha & _). apply read_block_Some in Hb as (Hb & _).
      apply relative_to_Some in Ha, Hb. unfold Pathlib.le in *.
      rewrite Ha, Hb, leb_app in Hxy. exact Hxy. }
    induction H as [|a l Hl IH Ha]; simpl; constructor; [exact IH|].
    rewrite List.Forall_forall in *. intros p Hp.
    apply in_map_iff in Hp as (b & <- & Hb). auto.
  - intros files' HP. unfold blocks.
    rewrite (code_files_permutation w self files files' HP). auto.
  - intros directory recursive n Hs Hd.
    destruct (scan_directory_returns w self directory recursive n Hs Hd)
      as (merged & _ & _ & Hret).
    exists merged. exact Hret.
Qed.

End Order.

(** * Further properties of the scanner *)

(** ** Construction *)

Section Construction.

Import Pathlib FS Scanner.

Lemma load_gitignore_frame w self gitignore_files self' :
  load_gitignore w self gitignore_files = Ok self' ->
  extensions self' = extensions self
  /\ exclude_patterns self' = exclude_patterns self
  /\ exclude_extensions self' = exclude_extensions self
  /\ no_structure self' = no_structure self
  /\ base_dir self' = base_dir self
  /\ (gitspec self' = gitspec self \/ exists spec, gitspec self' = Some spec).
Proof.
  unfold load_gitignore.
  destruct (match gitignore_files with
            | Some ((_ :: _) as files) => _
            | _ => _
            end) as [|line patterns]; [intros [= <-]; auto 10|].
  destruct (Pathspec.from_lines (line :: patterns)) as [spec|e]; [|discriminate].
  intros [= <-]. cbn. eauto 10.
Qed.

Lemma or_default_nonempty x d : d <> ∅ -> or_default x d <> ∅.
Proof. unfold or_default. destruct x as [s|]; [destruct (decide (s = ∅))|]; auto. Qed.

Lemma default_extensions_inhabited : default_extensions <> ∅.
Proof.
  intros E. assert (H : "py" ∈ default_extensions) by (apply (bool_decide_unpack _); vm_compute; exact I).
  rewrite E in H. exact (not_elem_of_empty _ H).
Qed.

(** X1.  A scanner that has been constructed never has an empty set of
    allowed extensions: an argument that is absent or empty stands for the
    default set, any other set is taken as it is.  It has no base directory
    yet, and prints the tree. *)
Theorem constructed_scanner_has_extensions
        (w : world) (extensions_arg exclude_patterns_arg exclude_extensions_arg
                     : option (gset string))
        (gitignore_files : option (list string)) (ignore_gitignore : bool)
        (self : CodeScanner) :
  init w extensions_arg exclude_patterns_arg exclude_extensions_arg
       gitignore_files ignore_gitignore = Ok self ->
  extensions self <> ∅
  /\ (extensions_arg = None \/ extensions_arg = Some ∅ ->
      extensions self = default_extensions)
  /\ (forall s, extensions_arg = Some s -> s <> ∅ -> extensions self = s)
  /\ base_dir self = None
  /\ no_structure self = false
  /\ (ignore_gitignore = true -> gitspec self = None).
Proof.
  intros Hinit.
  assert (Hfields : extensions self = or_default extensions_arg default_extensions
                    /\ base_dir self = None /\ no_structure self = false
                    /\ (ignore_gitignore = true -> gitspec self = None)).
  { unfold init in Hinit. destruct ignore_gitignore; cbn [negb] in Hinit.
    - injection Hinit as <-. cbn. auto.
    - apply load_gitignore_frame in Hinit as (He & _ & _ & Hn & Hb & _).
      rewrite He, Hn, Hb. cbn. repeat split; auto. discriminate. }
  destruct Hfields as (He & Hb & Hn & Hg). rewrite He.
  split; [apply or_default_nonempty, default_extensions_inhabited|].
  split; [|split; [|auto]].
  - intros [-> | ->]; cbn; [reflexivity|].
    destruct (decide (∅ = ∅)); [reflexivity | contradiction].
  - intros s -> Hs. cbn. destruct (decide (s = ∅)); [contradiction | reflexivity].
Qed.

Lemma constructed_scanner_has_extensions_witness :
  exists self,
    init (Example.disk None) (Some ∅) None None None false = Ok self
    /\ extensions self = default_extensions.
Proof.
  eexists. split; [vm_compute; reflexivity|].
  refine (proj1 (proj2 (constructed_scanner_has_extensions
                          (Example.disk None) (Some ∅) None None None false _ _)) _).
  - vm_compute. reflexivity.
  - right. reflexivity.
Defined.

Lemma explicit_patterns w files :
  files <> [] ->
  forall self,
    load_gitignore w self (Some files)
    = match concat (map (fun path => default [] (open_readlines w path)) files) with
      | [] => Ok self
      | patterns => spec ← Pathspec.from_lines patterns; Ok (set_gitspec self spec)
      end.
Proof.
  intros Hne self. unfold load_gitignore. destruct files as [|f files]; [contradiction|].
  destruct (concat _); reflexivity.
Qed.

(** X2.  With a non-empty list of explicit ignore files, the [.gitignore]
    of the working directory is not consulted: the outcome depends on what
    can be read from the listed files only.  A listed file that cannot be
    read is skipped without an exception, and when none can be read the
    scanner is left without a matcher. *)
Theorem explicit_ignore_files_replace_the_default
        (w : world) (self : CodeScanner) (files : list string) :
  files <> [] ->
  (forall w', (forall path, In path files ->
                            open_readlines w' path = open_readlines w path) ->
              load_gitignore w' self (Some files) = load_gitignore w self (Some files))
  /\ ((forall path, In path files -> open_readlines w path = None) ->
      load_gitignore w self (Some files) = Ok self)
  /\ (forall readable,
         readable = List.filter (fun path => bool_decide (open_readlines w path <> None)) files ->
         readable <> [] ->
         load_gitignore w self (Some files) = load_gitignore w self (Some readable)).
Proof.
  intros Hne. split; [|split].
  - intros w' Hsame. rewrite !explicit_patterns by exact Hne.
    assert (E : map (fun path => default [] (open_readlines w' path)) files
                = map (fun path => default [] (open_readlines w path)) files).
    { apply map_ext_in. intros path Hp. rewrite (Hsame path Hp). reflexivity. }
    rewrite E. reflexivity.
  - intros Hnone. rewrite explicit_patterns by exact Hne.
    assert (E : concat (map (fun path => default [] (open_readlines w path)) files) = []).
    { clear Hne. induction files as [|f files IH]; [reflexivity|].
      cbn [map concat]. rewrite (Hnone f (or_introl eq_refl)). cbn.
      apply IH. intros path Hp. apply Hnone. right. exact Hp. }
    rewrite E. reflexivity.
  - intros readable -> Hr. rewrite !explicit_patterns by assumption.
    assert (E : concat (map (fun path => default [] (open_readlines w path))
                            (List.filter
                               (fun path => bool_decide (open_readlines w path <> None))
                               files))
                = concat (map (fun path => default [] (open_readlines w path)) files)).
    { clear Hne Hr. induction files as [|f files IH]; [reflexivity|].
      cbn [List.filter map concat].
      destruct (open_readlines w f) as [ls|] eqn:Ef.
      - rewrite bool_decide_true by discriminate. cbn [map concat].
        rewrite Ef, IH. reflexivity.
      - rewrite bool_decide_false by (intros H; apply H; reflexivity).
        rewrite IH. reflexivity. }
    rewrite E. reflexivity.
Qed.

(** With [/nowhere] as the only ignore file, the rules of [/w/.gitignore]
    are not loaded. *)
Lemma explicit_ignore_files_replace_the_default_witness :
  path_exists (Example.disk (Some Example.rules_sub_last)) (of_string ".gitignore") = true
  /\ load_gitignore (Example.disk (Some Example.rules_sub_last)) (fresh None None None)
                    (Some ["/nowhere"])
     = Ok (fresh None None None).
Proof.
  split; [reflexivity|].
  refine (proj1 (proj2 (explicit_ignore_files_replace_the_default
                          (Example.disk (Some Example.rules_sub_last))
                          (fresh None None None) ["/nowhere"] _)) _).
  - discriminate.
  - intros path [<-|[]]. reflexivity.
Defined.

End Construction.

(** ** The filter and the configuration *)

Section Configuration.

Import Pathlib FS Scanner.

(** X3.  The filter is monotone in its configuration: with the same ignore
    rules and base directory, a scanner that allows more extensions and has
    fewer exclude patterns and exclude extensions includes every path that
    the other includes. *)
Theorem a_laxer_scanner_includes_more (self self' : CodeScanner) (file_path : Path) :
  gitspec self' = gitspec self ->
  base_dir self' = base_dir self ->
  extensions self ⊆ extensions self' ->
  exclude_patterns self' ⊆ exclude_patterns self ->
  exclude_extensions self' ⊆ exclude_extensions self ->
  should_include_file self file_path = true ->
  should_include_file self' file_path = true.
Proof.
  intros Hg Hb He Hp Hx. rewrite !should_include_file_true. unfold gitspec_excludes.
  rewrite Hg, Hb. intros (H1 & H2 & H3 & H4). repeat split; auto.
Qed.

Lemma a_laxer_scanner_includes_more_witness :
  should_include_file Example.plain (Example.proj_path ++ ["a.py"]) = true.
Proof.
  apply (a_laxer_scanner_includes_more
           (set_base_dir (fresh (Some {[ "py" ]}) (Some {[ "zzz" ]}) None) Example.proj_path)
           Example.plain);
    try reflexivity.
  - apply (bool_decide_unpack _). vm_compute. exact I.
  - apply (bool_decide_unpack _). vm_compute. exact I.
Defined.

Lemma has_substring_app p s t : has_substring p s -> has_substring p (s +:+ t).
Proof.
  intros (a & b & ->). exists a, (b +:+ t). rewrite !sapp_assoc. reflexivity.
Qed.

Lemma join_app_single sep (l1 l2 : list string) :
  l1 <> [] -> exists t, Str.join sep (l1 ++ l2) = Str.join sep l1 +:+ t.
Proof.
  intros H1. destruct l2 as [|y l2].
  - exists "". rewrite List.app_nil_r, sapp_nil_r. reflexivity.
  - exists (sep +:+ Str.join sep (y :: l2)). apply join_app; [exact H1 | discriminate].
Qed.

(** The string of a path below [dp] starts with the string of [dp]. *)
Lemma str_app dp rel : dp <> [] -> exists t, str (dp ++ rel) = str dp +:+ t.
Proof.
  intros Hdp. destruct dp as [|r rest]; [contradiction|].
  unfold str. cbn [app]. destruct (is_root r).
  - destruct rest as [|x rest].
    + exists (Str.join "/" rel). cbn. rewrite sapp_nil_r. reflexivity.
    + destruct (join_app_single "/" (x :: rest) rel) as [t Ht]; [discriminate|].
      exists t. rewrite Ht, sapp_assoc. reflexivity.
  - change (r :: rest ++ rel) with ((r :: rest) ++ rel).
    apply join_app_single. discriminate.
Qed.

Lemma enumerate_below dp n recursive f :
  In f (enumerate dp n recursive) -> exists rel, f = dp ++ rel.
Proof.
  unfold enumerate. destruct recursive.
  - intros Hf. apply rglob_listed in Hf as (rel & c & _ & ->). eauto.
  - destruct n as [|[|] es]; try (intros []).
    cbn [glob_star]. intros Hf. apply In_children in Hf as (k & c & _ & ->).
    exists [k]. reflexivity.
Qed.

Lemma filter_nothing {A} (g : A -> bool) (l : list A) :
  (forall x, In x l -> g x = false) -> List.filter g l = [].
Proof.
  induction l as [|x l IH]; intros H; [reflexivity|]. cbn [List.filter].
  rewrite (H x (or_introl eq_refl)). apply IH. intros y Hy. apply H. right. exact Hy.
Qed.

(** A listing that has a line has the line of a file. *)
Lemma listing_has_file_line self n :
  forall path depth ls,
    listing self path n depth = Ok ls -> ls <> [] ->
    exists l, In l ls /\ l_is_dir l = false.
Proof.
  induction n as [r d | lst es IH] using node_induction; intros path depth ls Hls Hne;
    [discriminate|].
  destruct lst; [|injection Hls as <-; contradiction].
  destruct ls as [|l0 ls0]; [contradiction|].
  assert (H0 : in_tree self path (Dir true es) depth l0)
    by (apply (listing_in_tree self _ _ _ _ Hls); left; reflexivity).
  assert (Hchild : forall k c,
             In (k, c) es -> hidden k = false ->
             gitspec_skips self (child path k) = Ok false ->
             forall below, listing self (child path k) c (S depth) = Ok below ->
             below <> [] ->
             exists l, In l (l0 :: ls0) /\ l_is_dir l = false).
  { intros k c He Hh Hs below Hb Hbne.
    rewrite List.Forall_forall in IH.
    destruct (IH (k, c) He _ _ _ Hb Hbne) as (l & Hl & Hfile).
    exists l. split; [|exact Hfile].
    apply (listing_in_tree self _ _ _ _ Hls). eapply in_tree_below; try eassumption.
    apply (listing_in_tree self _ _ _ _ Hb). exact Hl. }
  inversion H0 as [p es0 dp k r d He Hh Hs Hi
                  |p es0 dp k l' es' below He Hh Hs Hb Hbne
                  |p es0 dp k c l He Hh Hs Hsub]; subst.
  - eexists. split; [left; reflexivity | reflexivity].
  - eapply (Hchild k); eassumption.
  - assert (Hd : node_is_dir c = true) by (inversion Hsub; reflexivity).
    destruct (walked_listing self path (Dir true es) [k] c
                (walked_entry self path es k c He Hh Hs) depth _ Hls Hd) as [below Hb].
    cbn [length] in Hb. replace (depth + 1) with (S depth) in Hb by lia.
    apply (Hchild k c He Hh Hs below Hb).
    intros ->. apply (listing_in_tree self _ _ _ _ Hb) in Hsub. destruct Hsub.
Qed.

(** When the filter lets no path below [path] through, the tree is empty. *)
Lemma listing_of_excluded self path n depth ls :
  (forall rel, should_include_file self (path ++ rel) = false) ->
  listing self path n depth = Ok ls -> ls = [].
Proof.
  intros Hex Hls. destruct ls as [|l0 ls0] eqn:E; [reflexivity|]. exfalso.
  destruct (listing_has_file_line self n path depth _ Hls) as (l & Hl & Hfile);
    [discriminate|].
  apply (listing_in_tree self _ _ _ _ Hls) in Hl.
  destruct (in_tree_walked self _ _ _ _ Hl) as (rel & c & _ & _ & Hcase).
  destruct Hcase as [(_ & _ & Hi)|(Hd & _)]; [|congruence].
  rewrite Hex in Hi. discriminate.
Qed.

(** X4.  The exclude patterns are looked for in the whole path string, the
    scanned directory included: when an exclude pattern occurs in the path
    given for the root, no file below the root passes the filter, and the
    scan returns the heading of the tree and nothing else. *)
Theorem exclude_pattern_in_the_root_excludes_everything
        (w : world) (self : CodeScanner) (directory : string) (recursive : bool)
        (n : node) (pattern : string) :
  let dp := of_string directory in
  dp <> [] ->
  stat w dp = Some n ->
  node_is_dir n = true ->
  no_structure self = false ->
  pattern ∈ exclude_patterns self ->
  has_substring pattern (str dp) ->
  (forall rel, should_include_file (set_base_dir self (resolve w dp)) (dp ++ rel) = false)
  /\ returned (scan_directory w self directory recursive)
     = Ok (Str.join Str.lf ["# Repository Structure"; ""]).
Proof.
  intros dp Hdp Hs Hd Hns Hp Hsub.
  set (self' := set_base_dir self (resolve w dp)).
  assert (Hex : forall rel, should_include_file self' (dp ++ rel) = false).
  { intros rel. destruct (should_include_file self' (dp ++ rel)) eqn:E; [|reflexivity].
    apply should_include_file_true in E as (_ & _ & H3 & _). exfalso.
    apply (H3 pattern Hp). destruct (str_app dp rel Hdp) as [t ->].
    apply has_substring_app. exact Hsub. }
  split; [exact Hex|].
  destruct (scan_directory_returns w self directory recursive n Hs Hd)
    as (merged & Hm & _ & Hret).
  fold dp in Hm, Hret. fold self' in Hm, Hret. rewrite Hret.
  assert (Hblocks : blocks w self' dp (enumerate dp n recursive) = []).
  { unfold blocks, code_files. rewrite filter_nothing; [reflexivity|].
    intros f Hf. apply enumerate_below in Hf as [rel ->]. rewrite Hex.
    apply andb_false_r. }
  rewrite Hblocks. cbn [map concat]. rewrite List.app_nil_r.
  unfold structure_section in Hm. change (no_structure self') with (no_structure self) in Hm.
  rewrite Hns in Hm.
  assert (Hcm : can_match self') by (right; cbn; discriminate).
  destruct (listing_total self' n Hcm dp 0 Hd) as [ls Hls].
  pose proof (generate_structure_listing self' n dp 0) as Hg. rewrite Hls in Hg.
  rewrite (listing_of_excluded self' dp n 0 ls Hex Hls) in Hg.
  rewrite Hg in Hm. cbn in Hm. injection Hm as <-. reflexivity.
Qed.

(** Scanning [/w/proj] with the exclude pattern [w/] yields nothing. *)
Lemma exclude_pattern_in_the_root_excludes_everything_witness :
  returned (scan_directory (Example.disk None)
                           (fresh None (Some {[ "w/" ]}) None) "/w/proj" true)
  = Ok (Str.join Str.lf ["# Repository Structure"; ""]).
Proof.
  refine (proj2 (exclude_pattern_in_the_root_excludes_everything
                   (Example.disk None) (fresh None (Some {[ "w/" ]}) None) "/w/proj" true
                   Example.proj "w/" _ _ _ _ _ _)).
  - discriminate.
  - reflexivity.
  - reflexivity.
  - reflexivity.
  - apply (bool_decide_unpack _). vm_compute. exact I.
  - exists "/", "proj". reflexivity.
Defined.

End Configuration.

(** ** The root of a scan *)

Section Roots.

Import Pathlib FS Scanner.








(** X6.  A root that exists but is a regular file passes the existence
    check.  With the tree enabled, listing it raises [NotADirectoryError],
    which nothing catches, after the base directory has been set; with the
    tree disabled, the enumeration finds nothing and the scan returns the
    empty string. *)
Theorem scanning_a_regular_file (w : world) (self : CodeScanner) (directory : string)
        (recursive : bool) (r : bool) (d : string) :
  stat w (of_string directory) = Some (File r d) ->
  let out := scan_directory w self directory recursive in
  after out = set_base_dir self (resolve w (of_string directory))
  /\ (no_structure self = false -> returned out = Raise NotADirectoryError)
  /\ (no_structure self = true -> returned out = Ok "").
Proof.
  intros Hs. unfold scan_directory. rewrite Hs. unfold structure_section.
  change (no_structure (set_base_dir self (resolve w (of_string directory))))
    with (no_structure self).
  destruct (no_structure self).
  - cbn zeta. split; [reflexivity|]. split; [discriminate|]. intros _.
    unfold enumerate. destruct recursive; reflexivity.
  - cbn. split; [reflexivity|]. split; [reflexivity | discriminate].
Qed.

Lemma scanning_a_regular_file_witness :
  returned (scan_directory (Example.disk None) Example.plain "/w/proj/a.py" true)
  = Raise NotADirectoryError.
Proof.
  refine (proj1 (proj2 (scanning_a_regular_file (Example.disk None) Example.plain
                          "/w/proj/a.py" true true _ _)) eq_refl).
  vm_compute. reflexivity.
Defined.

(** X7.  The text of a scan of a directory.  On the file systems described
    here (no symbolic links, every directory that can be listed can be
    searched), the tree walker that [scan_directory] calls on an existing
    directory returns: the base directory is assigned at line 117, before the
    walk of line 123 reads it, so that no [TypeError] arises whatever the
    ignore rules, and the walk descends into directories only.  With the tree
    enabled the text returned is the heading line, the tree when it is not
    empty, an empty line, and the blocks; it starts with the heading line.
    With the tree disabled it is the blocks alone. *)
Theorem scan_of_a_directory
        (w : world) (self : CodeScanner) (directory : string)
        (recursive : bool) (n : node) :
  stat w (of_string directory) = Some n ->
  node_is_dir n = true ->
  let dp := of_string directory in
  let self' := set_base_dir self (resolve w dp) in
  let content := concat (map render_block (blocks w self' dp (enumerate dp n recursive))) in
  exists tree text,
    generate_structure self' dp n 0 = Ok tree
    /\ returned (scan_directory w self directory recursive) = Ok text
    /\ (no_structure self = false ->
        text = Str.join Str.lf
                 (["# Repository Structure"]
                    ++ (if String.eqb tree "" then [] else [tree]) ++ [""] ++ content)
        /\ Str.startswith ("# Repository Structure" +:+ Str.lf) text = true)
    /\ (no_structure self = true -> text = Str.join Str.lf content).
Proof.
  intros Hs Hd dp self' content.
  assert (Hcm : can_match self') by (right; cbn; discriminate).
  destruct (listing_total self' n Hcm dp 0 Hd) as [ls Hls].
  pose proof (generate_structure_listing self' n dp 0) as Hg. rewrite Hls in Hg.
  destruct (scan_directory_returns w self directory recursive n Hs Hd)
    as (merged & Hm & _ & Hret).
  fold dp in Hm, Hret. fold self' in Hm, Hret. fold content in Hret.
  eexists. eexists. split; [exact Hg|]. split; [exact Hret|].
  unfold structure_section in Hm. change (no_structure self') with (no_structure self) in Hm.
  rewrite Hg in Hm. destruct (no_structure self).
  - injection Hm as <-. split; [discriminate | reflexivity].
  - split; [|discriminate]. intros _. cbn [mbind result_bind] in Hm. injection Hm as <-.
    set (tree := Str.join Str.lf (map render_line ls)).
    set (rest := (if String.eqb tree "" then [] else [tree]) ++ [""]).
    split.
    + unfold rest. cbn [app]. rewrite <- List.app_assoc. reflexivity.
    + apply startswith_spec.
      assert (Hne : rest ++ content <> [])
        by (unfold rest; destruct (String.eqb tree ""); discriminate).
      change (["# Repository Structure"] ++ rest) with ("# Repository Structure" :: rest).
      change (("# Repository Structure" :: rest) ++ content)
        with ("# Repository Structure" :: (rest ++ content)).
      destruct (rest ++ content) as [|y l]; [contradiction|].
      exists (Str.join Str.lf (y :: l)). rewrite join_cons, sapp_assoc. reflexivity.
Qed.

(** The scan of the example project starts with the heading, and its tree
    is not empty. *)
Lemma scan_of_a_directory_witness :
  exists tree text,
    generate_structure Example.plain Example.proj_path Example.proj 0 = Ok tree
    /\ tree <> ""
    /\ returned (scan_directory (Example.disk None) Example.plain "/w/proj" true) = Ok text
    /\ Str.startswith ("# Repository Structure" +:+ Str.lf) text = true.
Proof.
  destruct (scan_of_a_directory (Example.disk None) Example.plain "/w/proj" true
              Example.proj eq_refl eq_refl) as (tree & text & Htree & Hret & Hon & _).
  exists tree, text. split; [exact Htree|]. split.
  - intros ->. vm_compute in Htree. discriminate.
  - split; [exact Hret | apply Hon; reflexivity].
Defined.

End Roots.

(** ** The shape of the tree *)

Section TreeShape.

Import Pathlib FS Scanner.

#[local] Arguments Str.startswith : simpl never.
#[local] Arguments should_include_file : simpl never.

Lemma forallb_sorted_entries (g : string * node -> bool) path es :
  forallb g (merge_sort (entry_le path) es) = forallb g es.
Proof.
  apply Bool.eq_iff_eq_true. rewrite !forallb_forall.
  split; intros H e He; apply H; apply (In_sorted_entries path es e); exact He.
Qed.

Lemma structure_loop_without_base self path depth below (es : list (string * node)) :
  gitspec self <> None -> base_dir self = None ->
  structure_loop self depth (visit_entry below path <$> es)
  = if forallb (fun e => hidden (fst e)) es then Ok [] else Raise TypeError.
Proof.
  intros Hg Hb. induction es as [|[k c] es IH]; [reflexivity|].
  cbn [fmap list_fmap forallb fst]. cbn [structure_loop visit_entry v_item fst].
  rewrite hidden_child. destruct (hidden k); [exact IH|].
  unfold gitspec_skips. rewrite Hb. destruct (gitspec self); [reflexivity | contradiction].
Qed.

(** X8.  The walker consults the ignore rules as soon as there are rules,
    base directory or not.  On a scanner that has rules and has not scanned
    yet, [generate_structure] raises a [TypeError] at the first entry that is
    not hidden; it returns the empty string only when every entry is hidden. *)
Theorem tree_before_the_first_scan (self : CodeScanner) (path : Path)
        (es : list (string * node)) (depth : nat) :
  gitspec self <> None ->
  base_dir self = None ->
  generate_structure self path (Dir true es) depth
  = if forallb (fun e => hidden (fst e)) es then Ok "" else Raise TypeError.
Proof.
  intros Hg Hb. rewrite generate_structure_dir.
  rewrite (structure_loop_without_base self path depth _ _ Hg Hb).
  rewrite forallb_sorted_entries. destruct (forallb _ es); reflexivity.
Qed.

Lemma tree_before_the_first_scan_witness :
  exists self,
    init (Example.disk (Some "*.log")) None None None None false = Ok self
    /\ generate_structure self Example.proj_path (Dir true [("a.py", File true "x")]) 0
       = Raise TypeError.
Proof.
  eexists. split; [vm_compute; reflexivity|].
  refine (tree_before_the_first_scan _ Example.proj_path [("a.py", File true "x")] 0 _ _).
  - discriminate.
  - reflexivity.
Defined.




End TreeShape.

(** ** The tree and the content *)

Section TreeAndContent.

Import Pathlib FS Scanner.




Lemma walked_cut self path n rel c :
  walked self path n rel c ->
  forall rel1 rel2, rel = rel1 ++ rel2 -> rel1 <> [] -> rel2 <> [] ->
  exists c1, walked self path n rel1 c1 /\ walked self (path ++ rel1) c1 rel2 c.
Proof.
  induction 1 as [path es k c He Hh Hs | path es k c rel c' He Hh Hs Hw IH];
    intros rel1 rel2 E Hne1 Hne2; destruct rel1 as [|k1 rel1]; try contradiction;
    cbn [app] in E; injection E as <- E.
  - destruct rel1, rel2; try discriminate. contradiction.
  - destruct rel1 as [|k2 rel1].
    + cbn [app] in E. subst rel2. exists c. split; [apply walked_entry; assumption|].
      exact Hw.
    + assert (Hne : k2 :: rel1 <> []) by discriminate.
      destruct (IH (k2 :: rel1) rel2 E Hne Hne2) as (c1 & H1 & H2).
      exists c1. split; [eapply walked_down; eassumption|].
      rewrite child_app in H2. exact H2.
Qed.

(** X11.  The tree is closed under parents, and its indentation is the
    nesting: a line for an entry that lies [length rel] directories below the
    listed one is printed [length rel] levels deeper, and the directory that
    holds the entry has its own line, one level up. *)
Theorem lines_have_their_parents (self : CodeScanner) (path : Path) (n : node)
        (depth : nat) (ls : list line) (l : line) (rel : list string) (k : string) :
  listing self path n depth = Ok ls ->
  In l ls ->
  l_item l = path ++ rel ++ [k] ->
  rel <> [] ->
  l_depth l = depth + length rel
  /\ In (Line (depth + length rel - 1) (path ++ rel) true) ls.
Proof.
  intros Hls Hl Hitem Hne.
  apply (listing_in_tree self _ _ _ _ Hls) in Hl.
  destruct (in_tree_walked self _ _ _ _ Hl) as (rel0 & c & Hw & Hline & Hcase).
  assert (E : rel0 = rel ++ [k]).
  { rewrite Hline in Hitem. unfold line_at in Hitem. cbn [l_item] in Hitem.
    apply app_inv_head in Hitem. exact Hitem. }
  subst rel0. split.
  { rewrite Hline. unfold line_at. cbn [l_depth]. rewrite length_app. cbn [length]. lia. }
  assert (Hk : [k] <> []) by discriminate.
  destruct (walked_cut _ _ _ _ _ Hw rel [k] eq_refl Hne Hk) as (c1 & H1 & H2).
  assert (Hd1 : node_is_dir c1 = true) by (inversion H2; reflexivity).
  destruct (walked_listing self _ _ _ _ H1 depth ls Hls Hd1) as [below Hbelow].
  assert (Hin : in_tree self (path ++ rel) c1 (depth + length rel) l).
  { destruct (walked_in_tree self _ _ _ _ H2 (depth + length rel)) as [Hfile Hdir].
    rewrite Hline. unfold line_at.
    replace (depth + length (rel ++ [k]) - 1) with (depth + length rel + length [k] - 1)
      by (rewrite length_app; lia).
    rewrite List.app_assoc.
    destruct Hcase as [(E1 & Hc & Hi)|(E1 & Hc & below' & Hb' & Hne')]; rewrite E1.
    - apply Hfile; [exact Hc|]. rewrite <- List.app_assoc. exact Hi.
    - refine (proj1 (Hdir Hc below' _ Hne')).
      rewrite <- List.app_assoc.
      replace (depth + length rel + length [k]) with (depth + length (rel ++ [k]))
        by (rewrite length_app; lia).
      exact Hb'. }
  apply (listing_in_tree self _ _ _ _ Hbelow) in Hin.
  apply (listing_in_tree self _ _ _ _ Hls).
  destruct (walked_in_tree self _ _ _ _ H1 depth) as [_ Hdir].
  refine (proj1 (Hdir Hd1 below Hbelow _)). intros ->. destruct Hin.
Qed.

Lemma lines_have_their_parents_witness :
  exists ls,
    listing Example.plain Example.proj_path Example.proj 0 = Ok ls
    /\ In (Line 0 (Example.proj_path ++ ["sub"]) true) ls.
Proof.
  eexists. split; [vm_compute; reflexivity|].
  refine (proj2 (lines_have_their_parents Example.plain Example.proj_path Example.proj 0 _
                   (Line 1 (Example.proj_path ++ ["sub"; "c.py"]) false) ["sub"] "c.py"
                   _ _ _ _)).
  - vm_compute. reflexivity.
  - vm_compute. tauto.
  - reflexivity.
  - discriminate.
Defined.

End TreeAndContent.

(** ** The command line *)

Section CommandLine.

Import Pathlib FS Scanner.

Lemma rstrip_space_cons a s :
  Str.rstrip_space (String a s)
  = match Str.rstrip_space s with
    | "" => if Str.is_space a then "" else String a ""
    | t => String a t
    end.
Proof. reflexivity. Qed.

Lemma rstrip_space_idem s : Str.rstrip_space (Str.rstrip_space s) = Str.rstrip_space s.
Proof.
  induction s as [|a s IH]; [reflexivity|]. rewrite rstrip_space_cons.
  destruct (Str.rstrip_space s) as [|b t] eqn:E.
  - destruct (Str.is_space a) eqn:Ea; [reflexivity|].
    rewrite rstrip_space_cons. cbn [Str.rstrip_space]. rewrite Ea. reflexivity.
  - rewrite rstrip_space_cons, IH. reflexivity.
Qed.

Lemma lstrip_space_head s :
  Str.lstrip_space s = ""
  \/ exists a t, Str.lstrip_space s = String a t /\ Str.is_space a = false.
Proof.
  induction s as [|a s IH]; [left; reflexivity|]. cbn [Str.lstrip_space].
  destruct (Str.is_space a) eqn:Ea; [exact IH|]. right. eauto.
Qed.

Lemma strip_idem s : Str.strip (Str.strip s) = Str.strip s.
Proof.
  unfold Str.strip. destruct (lstrip_space_head s) as [->|(a & t & -> & Ha)]; [reflexivity|].
  assert (E : Str.lstrip_space (Str.rstrip_space (String a t))
              = Str.rstrip_space (String a t)).
  { rewrite rstrip_space_cons. rewrite Ha.
    destruct (Str.rstrip_space t); cbn [Str.lstrip_space]; rewrite Ha; reflexivity. }
  rewrite E. apply rstrip_space_idem.
Qed.

Lemma split_lacks c s x : In x (Str.split c s) -> lacks c x.
Proof.
  revert x. induction s as [|a s IH]; intros x; cbn [Str.split].
  - intros [<-|[]]. exact I.
  - destruct (Ascii.eqb_spec a c) as [->|Hac].
    + intros [<-|Hx]; [exact I | apply IH; exact Hx].
    + pose proof (split_nonempty c s) as Hne.
      destruct (Str.split c s) as [|h t]; [contradiction|].
      intros [<-|Hx].
      * split; [exact Hac | apply IH; left; reflexivity].
      * apply IH. right. exact Hx.
Qed.

Lemma lacks_lstrip_space c s : lacks c s -> lacks c (Str.lstrip_space s).
Proof.
  induction s as [|a s IH]; [trivial|]. intros [Ha Hs]. cbn [Str.lstrip_space].
  destruct (Str.is_space a); [apply IH; exact Hs | split; assumption].
Qed.

Lemma lacks_rstrip_space c s : lacks c s -> lacks c (Str.rstrip_space s).
Proof.
  induction s as [|a s IH]; [trivial|]. intros [Ha Hs]. rewrite rstrip_space_cons.
  specialize (IH Hs). destruct (Str.rstrip_space s) as [|b t].
  - destruct (Str.is_space a); [exact I | split; [exact Ha | exact I]].
  - split; assumption.
Qed.

Lemma In_comma_set s x :
  x ∈ comma_set s <-> x <> "" /\ exists piece, In piece (Str.split "," s) /\ x = Str.strip piece.
Proof.
  unfold comma_set. rewrite elem_of_list_to_set, list_elem_of_In, filter_In, in_map_iff.
  rewrite negb_true_iff. split.
  - intros [(piece & <- & Hp) Hx]. split; [|eauto].
    intros E. rewrite E in Hx. discriminate.
  - intros [Hx (piece & Hp & ->)]. split; [eauto|]. apply String.eqb_neq. exact Hx.
Qed.

(** X12.  The sets of the command line (lines 200-203): every element of
    a comma-separated argument is a piece of it with the white space around
    it removed; it is not empty, has no white space left at either end and
    holds no comma.  Pieces that are blank are dropped.  The argument is
    taken to be ASCII, where [Str.strip] is Python's [strip]. *)
Theorem comma_set_elements (s x : string) :
  Str.all_ascii s = true ->
  x ∈ comma_set s ->
  x <> "" /\ Str.strip x = x /\ lacks "," x
  /\ exists piece, In piece (Str.split "," s) /\ x = Str.strip piece.
Proof.
  intros _ Hx. apply In_comma_set in Hx as [Hne (piece & Hp & ->)].
  split; [exact Hne|]. split; [apply strip_idem|]. split; [|eauto].
  unfold Str.strip. apply lacks_rstrip_space, lacks_lstrip_space.
  eapply split_lacks. exact Hp.
Qed.

Lemma comma_set_elements_witness :
  "js" <> "" /\ Str.strip "js" = "js" /\ lacks "," "js"
  /\ exists piece, In piece (Str.split "," "py, js ,,") /\ "js" = Str.strip piece.
Proof.
  apply (comma_set_elements "py, js ,," "js").
  - reflexivity.
  - apply (bool_decide_unpack _). vm_compute. exact I.
Defined.

(** X13.  An empty exclude pattern is a substring of every path, and an
    empty exclude extension a suffix of every path: a scanner that holds one
    includes no file at all. *)
Theorem an_empty_exclusion_excludes_everything (self : CodeScanner) (file_path : Path) :
  "" ∈ exclude_patterns self \/ "" ∈ exclude_extensions self ->
  should_include_file self file_path = false.
Proof.
  intros H. destruct (should_include_file self file_path) eqn:E; [|reflexivity].
  apply should_include_file_true in E as (_ & _ & Hp & Hx). exfalso.
  destruct H as [H|H].
  - apply (Hp "" H). exists "", (str file_path). reflexivity.
  - apply (Hx "" H). exists (str file_path). rewrite sapp_nil_r. reflexivity.
Qed.

Lemma an_empty_exclusion_excludes_everything_witness :
  should_include_file (fresh None (Some {[ "" ]}) None) (Example.proj_path ++ ["a.py"])
  = false.
Proof.
  apply an_empty_exclusion_excludes_everything. left.
  apply (bool_decide_unpack _). vm_compute. exact I.
Defined.

Lemma or_default_empty s : or_default (Some s) ∅ = s.
Proof. unfold or_default. destruct (decide (s = ∅)) as [->|]; reflexivity. Qed.

(** X14.  The scanner of the command line (lines 200-222) excludes by the
    sets read from the arguments, which never hold the empty string; its
    allowed extensions are those of [--extensions], and the default set when
    that argument names none.  When the directory does not exist the run ends
    with the [ValueError] of [scan_directory].  The arguments are taken to be
    ASCII, as for [comma_set]. *)
Theorem command_line_scanner (w : world) (args : Args) (scanner : CodeScanner) :
  Str.all_ascii (a_extensions args) = true ->
  Str.all_ascii (a_exclude_patterns args) = true ->
  Str.all_ascii (a_exclude_extensions args) = true ->
  cli_scanner w args = Ok scanner ->
  exclude_patterns scanner = comma_set (a_exclude_patterns args)
  /\ exclude_extensions scanner = comma_set (a_exclude_extensions args)
  /\ ("" ∉ exclude_patterns scanner)
  /\ ("" ∉ exclude_extensions scanner)
  /\ extensions scanner
     = (if decide (comma_set (a_extensions args) = ∅) then default_extensions
        else comma_set (a_extensions args))
  /\ (stat w (of_string (a_directory args)) = None ->
      cli_scan w args
      = Raise (ValueError ("Directory " +:+ a_directory args +:+ " does not exist"))).
Proof.
  intros _ _ _ Hs. pose proof Hs as Hinit. unfold cli_scanner, init in Hinit.
  cbn [negb] in Hinit. apply load_gitignore_frame in Hinit as (He & Hp & Hx & _).
  cbn [fresh extensions exclude_patterns exclude_extensions] in He, Hp, Hx.
  rewrite or_default_empty in Hp, Hx.
  assert (Hblank : forall s, "" ∉ comma_set s).
  { intros s H. apply In_comma_set in H as [H _]. apply H. reflexivity. }
  repeat split.
  - exact Hp.
  - exact Hx.
  - rewrite Hp. apply Hblank.
  - rewrite Hx. apply Hblank.
  - exact He.
  - intros Hstat. unfold cli_scan. rewrite Hs. cbn. unfold scan_directory.
    rewrite Hstat. reflexivity.
Qed.

Lemma command_line_scanner_witness :
  exists scanner,
    cli_scanner (Example.disk None)
                {| a_directory := "/w/nowhere"; a_extensions := " , ";
                   a_exclude_patterns := "test_,"; a_exclude_extensions := "";
                   a_output := None; a_no_recursive := false |} = Ok scanner
    /\ extensions scanner = default_extensions.
Proof.
  exists (fresh (Some (comma_set " , ")) (Some (comma_set "test_,")) (Some (comma_set ""))).
  split; [reflexivity|].
  assert (H : cli_scanner (Example.disk None)
                {| a_directory := "/w/nowhere"; a_extensions := " , ";
                   a_exclude_patterns := "test_,"; a_exclude_extensions := "";
                   a_output := None; a_no_recursive := false |}
              = Ok (fresh (Some (comma_set " , ")) (Some (comma_set "test_,"))
                          (Some (comma_set "")))) by reflexivity.
  set (scanner := fresh (Some (comma_set " , ")) (Some (comma_set "test_,"))
                        (Some (comma_set ""))) in *.
  destruct (command_line_scanner
              (Example.disk None)
              {| a_directory := "/w/nowhere"; a_extensions := " , ";
                 a_exclude_patterns := "test_,"; a_exclude_extensions := "";
                 a_output := None; a_no_recursive := false |}
              scanner eq_refl eq_refl eq_refl H)
    as (_ & _ & _ & _ & He & _).
  rewrite He. reflexivity.
Defined.

End CommandLine.

(** ** What the tree depends on *)

Section TreeInvariance.

Import Pathlib FS Scanner.

Variable self : CodeScanner.

#[local] Arguments Str.startswith : simpl never.
#[local] Arguments should_include_file : simpl never.
#[local] Arguments gitspec_skips : simpl never.

Lemma alike_is_dir n n' : alike n n' -> node_is_dir n = node_is_dir n'.
Proof. inversion 1; reflexivity. Qed.

Lemma Forall2_pairs (es es1 : list (string * node)) :
  Forall2 (fun e e1 => fst e = fst e1 /\ alike (snd e) (snd e1)) es es1 ->
  exists zs, es = pair_left <$> zs /\ es1 = pair_right <$> zs
             /\ Forall (fun z => alike (fst (snd z)) (snd (snd z))) zs.
Proof.
  induction 1 as [|[k c] [k1 c1] es es1 [Hk Hc] _ (zs & -> & -> & Hzs)].
  - exists []. repeat split. constructor.
  - cbn [fst snd] in Hk, Hc. subst k1. exists ((k, (c, c1)) :: zs).
    repeat split. constructor; assumption.
Qed.

Lemma pair_names (zs : list (string * (node * node))) :
  map fst (pair_right <$> zs) = map fst (pair_left <$> zs).
Proof. induction zs as [|z zs IH]; [reflexivity|]. cbn. f_equal. exact IH. Qed.

#[local] Instance entry_le_total path : Total (entry_le path).
Proof. intros a b. unfold entry_le. apply le_total. Qed.

#[local] Instance entry_le_trans path : Transitive (entry_le path).
Proof. intros a b c. unfold entry_le. apply le_trans. Qed.

Lemma entry_le_antisym path (e1 e2 : string * node) :
  entry_le path e1 e2 -> entry_le path e2 e1 -> fst e1 = fst e2.
Proof.
  unfold entry_le, child. intros H1 H2.
  pose proof (le_antisym _ _ H1 H2) as E. apply app_inj_tail in E as [_ E]. exact E.
Qed.

(** With distinct names, the sorted entries do not depend on the order of
    the enumeration. *)
Lemma sorted_entries_permutation path (es es' : list (string * node)) :
  NoDup (map fst es) -> es ≡ₚ es' ->
  merge_sort (entry_le path) es = merge_sort (entry_le path) es'.
Proof.
  intros Hnd HP. apply (Sorted_unique_strong (entry_le path)).
  - intros [k1 c1] [k2 c2] H1 H2 Hle1 Hle2.
    rewrite (merge_sort_Permutation (entry_le path)) in H1.
    rewrite (merge_sort_Permutation (entry_le path)), <- HP in H2.
    pose proof (entry_le_antisym path _ _ Hle1 Hle2) as E. cbn [fst] in E. subst k2.
    f_equal. apply list_elem_of_In in H1, H2. eapply entries_functional; eassumption.
  - apply Sorted_merge_sort; apply _.
  - apply Sorted_merge_sort; apply _.
  - rewrite !(merge_sort_Permutation (entry_le path)). exact HP.
Qed.

Lemma listing_loop_alike path depth (zs : list (string * (node * node))) :
  Forall (fun z => node_is_dir (fst (snd z)) = node_is_dir (snd (snd z))
                   /\ forall p d, listing self p (fst (snd z)) d
                                  = listing self p (snd (snd z)) d) zs ->
  listing_loop self depth
    (visit_entry (fun p c => listing self p c (S depth)) path <$> (pair_left <$> zs))
  = listing_loop self depth
      (visit_entry (fun p c => listing self p c (S depth)) path <$> (pair_right <$> zs)).
Proof.
  induction 1 as [|[k [c c1]] zs [Hd Hl] _ IH]; [reflexivity|].
  cbn [fst snd] in Hd, Hl.
  cbn [fmap list_fmap pair_left pair_right fst snd] in *.
  cbn [listing_loop visit_entry v_item v_node v_below fst snd].
  change (pair_left (k, (c, c1))) with (k, c).
  change (pair_right (k, (c, c1))) with (k, c1). cbn [fst snd].
  rewrite IH, Hd, Hl. reflexivity.
Qed.

Lemma listing_alike n :
  wf_node n -> forall n', alike n n' ->
  forall path depth, listing self path n depth = listing self path n' depth.
Proof.
  induction n as [r d | lst es IH] using node_induction; intros Hwf n' Ha path depth.
  - inversion Ha; reflexivity.
  - inversion Ha as [|l0 es0 es1 es' HF HP]; subst.
    destruct lst; [|reflexivity]. rewrite !listing_dir.
    destruct (Forall2_pairs _ _ HF) as (zs & -> & -> & Hzs).
    assert (Hnd : NoDup (map fst (pair_right <$> zs)))
      by (rewrite pair_names; eapply wf_entries; exact Hwf).
    rewrite <- (sorted_entries_permutation path _ _ Hnd HP).
    rewrite (merge_sort_fmap (pair_le path) (entry_le path) pair_left)
      by (intros x y; reflexivity).
    rewrite (merge_sort_fmap (pair_le path) (entry_le path) pair_right)
      by (intros x y; reflexivity).
    apply listing_loop_alike. apply List.Forall_forall. intros z Hz.
    apply list_elem_of_In in Hz. rewrite (merge_sort_Permutation (pair_le path)) in Hz.
    assert (Hleft : In (pair_left z) (pair_left <$> zs)).
    { apply list_elem_of_In, list_elem_of_fmap. eauto. }
    apply list_elem_of_In in Hz.
    rewrite List.Forall_forall in Hzs, IH. specialize (Hzs z Hz).
    split; [apply alike_is_dir; exact Hzs|]. intros p d.
    apply (IH (pair_left z) Hleft); [|exact Hzs].
    destruct z as [k [c c1]]. eapply wf_entry; eassumption.
Qed.

(** X15.  The tree depends on the names and the nesting only: two
    well-formed trees that hold the same names at the same places, in
    directories of the same listability, give the same tree, whatever the
    order in which each directory enumerates its entries and whatever the
    files hold or whether they can be read. *)
Theorem tree_depends_on_names_only (n n' : node) (path : Path) (depth : nat) :
  wf_node n ->
  alike n n' ->
  generate_structure self path n depth = generate_structure self path n' depth
  /\ listing self path n depth = listing self path n' depth.
Proof.
  intros Hwf Ha. pose proof (listing_alike n Hwf n' Ha path depth) as E.
  split; [|exact E].
  pose proof (generate_structure_listing self n path depth) as H.
  pose proof (generate_structure_listing self n' path depth) as H'.
  rewrite <- E in H'. destruct (listing self path n depth); congruence.
Qed.

Lemma listing_items path n depth ls l :
  listing self path n depth = Ok ls -> In l ls ->
  exists rel, rel <> [] /\ l_item l = path ++ rel.
Proof.
  intros Hls Hl. apply (listing_in_tree self _ _ _ _ Hls) in Hl.
  destruct (in_tree_walked self _ _ _ _ Hl) as (rel & c & Hw & Hline & _).
  exists rel. split; [eapply walked_nonempty; exact Hw|]. rewrite Hline. reflexivity.
Qed.

Lemma path_lt_below path k rel : rel <> [] -> path_lt (child path k) (path ++ k :: rel).
Proof.
  intros Hne. unfold path_lt, le, child. split.
  - rewrite leb_app. cbn [leb]. rewrite String.eqb_refl. reflexivity.
  - intros E. apply app_inv_head in E. injection E as E. apply Hne. symmetry. exact E.
Qed.

Lemma path_lt_sibling path k k' rel rel' :
  le (child path k) (child path k') -> k <> k' ->
  path_lt (path ++ k :: rel) (path ++ k' :: rel').
Proof.
  unfold path_lt, le, child. rewrite !leb_app. cbn [leb].
  intros Hle Hne. apply String.eqb_neq in Hne as Hneb. rewrite Hneb in *. split; [exact Hle|].
  intros E. apply app_inv_head in E. injection E as E _. contradiction.
Qed.

Lemma listing_loop_sorted path depth (es : list (string * node)) :
  StronglySorted (entry_le path) es ->
  NoDup (map fst es) ->
  Forall (fun e => forall below,
              listing self (child path (fst e)) (snd e) (S depth) = Ok below ->
              StronglySorted path_lt (map l_item below)) es ->
  forall ls,
    listing_loop self depth
      (visit_entry (fun p c => listing self p c (S depth)) path <$> es) = Ok ls ->
    StronglySorted path_lt (map l_item ls)
    /\ forall l, In l ls -> exists k c rel, In (k, c) es /\ l_item l = path ++ k :: rel.
Proof.
  induction 1 as [|[k c] es Hss IH Hle]; intros Hnd Hsub ls Hls.
  - injection Hls as <-. split; [constructor | intros l []].
  - cbn [map fst] in Hnd. apply NoDup_cons in Hnd as [Hk Hnd].
    apply List.Forall_cons_iff in Hsub as [Hc Hsub]. cbn [fst snd] in Hc.
    specialize (IH Hnd Hsub).
    assert (Hlater : forall more, (forall l, In l more ->
                        exists k' c' rel', In (k', c') es /\ l_item l = path ++ k' :: rel') ->
                     forall rel l, In l more -> path_lt (path ++ k :: rel) (l_item l)).
    { intros more Hmore rel l Hl. destruct (Hmore l Hl) as (k' & c' & rel' & He & ->).
      apply path_lt_sibling.
      - rewrite List.Forall_forall in Hle. apply (Hle (k', c') He).
      - intros ->. apply Hk. apply list_elem_of_In, in_map_iff. exists (k', c'). auto. }
    assert (Hweak : forall more,
               (forall l, In l more ->
                  exists k' c' rel', In (k', c') es /\ l_item l = path ++ k' :: rel') ->
               forall l, In l more ->
                  exists k' c' rel', In (k', c') ((k, c) :: es) /\ l_item l = path ++ k' :: rel').
    { intros more Hmore l Hl. destruct (Hmore l Hl) as (k' & c' & rel' & He & E).
      exists k', c', rel'. split; [right; exact He | exact E]. }
    cbn [fmap list_fmap] in Hls. cbn [listing_loop visit_entry v_item v_node v_below fst snd]
      in Hls.
    rewrite hidden_child in Hls.
    destruct (hidden k).
    { destruct (IH ls Hls) as [H1 H2]. split; [exact H1 | apply Hweak; exact H2]. }
    destruct (gitspec_skips self (child path k)) as [skip|]; [|discriminate].
    cbn [mbind result_bind] in Hls. destruct skip.
    { destruct (IH ls Hls) as [H1 H2]. split; [exact H1 | apply Hweak; exact H2]. }
    destruct (node_is_dir c).
    + destruct (listing self (child path k) c (S depth)) as [below|] eqn:Eb; [|discriminate].
      cbn [mbind result_bind] in Hls.
      destruct (listing_loop self depth _) as [more|] eqn:Em; [|discriminate].
      cbn [mbind result_bind] in Hls.
      destruct (IH more eq_refl) as [H1 H2].
      destruct below as [|b0 below]; injection Hls as <-.
      { split; [exact H1 | apply Hweak; exact H2]. }
      assert (Hb : forall l, In l (b0 :: below) ->
                   exists rel, rel <> [] /\ l_item l = path ++ k :: rel).
      { intros l Hl. destruct (listing_items _ _ _ _ l Eb Hl) as (rel & Hne & E).
        exists rel. split; [exact Hne|]. rewrite E. apply child_app. }
      split.
      * change (StronglySorted path_lt
                  (child path k :: map l_item ((b0 :: below) ++ more))).
        rewrite map_app. constructor.
        -- apply StronglySorted_app. split; [|split; [apply (Hc _ eq_refl) | exact H1]].
           intros x1 x2 Hx1 Hx2. apply list_elem_of_In, in_map_iff in Hx1 as (l1 & <- & Hl1).
           apply list_elem_of_In, in_map_iff in Hx2 as (l2 & <- & Hl2).
           destruct (Hb l1 Hl1) as (rel & _ & ->). apply (Hlater more H2 rel l2 Hl2).
        -- apply List.Forall_forall. intros x Hx. apply in_app_or in Hx as [Hx|Hx];
             apply in_map_iff in Hx as (l & <- & Hl).
           ++ destruct (Hb l Hl) as (rel & Hne & ->). apply path_lt_below. exact Hne.
           ++ apply (Hlater more H2 [] l Hl).
      * intros l [<-|Hl].
        -- exists k, c, []. split; [left; reflexivity | reflexivity].
        -- change (In l ((b0 :: below) ++ more)) in Hl. apply in_app_or in Hl as [Hl|Hl].
           ++ destruct (Hb l Hl) as (rel & _ & E). exists k, c, rel.
              split; [left; reflexivity | exact E].
           ++ apply (Hweak more H2 l Hl).
    + destruct (should_include_file self (child path k)).
      * destruct (listing_loop self depth _) as [more|] eqn:Em; [|discriminate].
        cbn [mbind result_bind] in Hls. injection Hls as <-.
        destruct (IH more eq_refl) as [H1 H2]. split.
        -- cbn [map l_item]. constructor; [exact H1|].
           apply List.Forall_forall. intros x Hx. apply in_map_iff in Hx as (l & <- & Hl).
           apply (Hlater more H2 [] l Hl).
        -- intros l [<-|Hl]; [|apply (Hweak more H2 l Hl)].
           exists k, c, []. split; [left; reflexivity | reflexivity].
      * destruct (IH ls Hls) as [H1 H2]. split; [exact H1 | apply Hweak; exact H2].
Qed.

Lemma listing_sorted n :
  wf_node n -> forall path depth ls,
  listing self path n depth = Ok ls -> StronglySorted path_lt (map l_item ls).
Proof.
  induction n as [r d | lst es IH] using node_induction; intros Hwf path depth ls Hls;
    [discriminate|].
  destruct lst; [|injection Hls as <-; constructor].
  rewrite listing_dir in Hls.
  refine (proj1 (listing_loop_sorted path depth _ _ _ _ ls Hls)).
  - apply Sorted_StronglySorted; [apply _|]. apply Sorted_merge_sort; apply _.
  - assert (HP : map fst (merge_sort (entry_le path) es) ≡ₚ map fst es)
      by (apply Permutation_map, merge_sort_Permutation).
    rewrite HP. eapply wf_entries; exact Hwf.
  - apply List.Forall_forall. intros [k c] He below Hb. cbn [fst snd] in Hb.
    apply In_sorted_entries in He. rewrite List.Forall_forall in IH.
    apply (IH (k, c) He (wf_entry _ _ _ _ Hwf He) _ _ _ Hb).
Qed.

Lemma StronglySorted_lt_NoDup (l : list Path) : StronglySorted path_lt l -> NoDup l.
Proof.
  induction 1 as [|x l _ IH Hx]; [apply NoDup_nil_2|]. apply NoDup_cons_2; [|exact IH].
  intros Hin. apply list_elem_of_In in Hin. rewrite List.Forall_forall in Hx.
  destruct (Hx x Hin) as [_ Hne]. apply Hne. reflexivity.
Qed.

Lemma StronglySorted_lt_le (l : list Path) : StronglySorted path_lt l -> StronglySorted le l.
Proof.
  induction 1 as [|x l _ IH Hx]; constructor; [exact IH|].
  eapply List.Forall_impl; [|exact Hx]. intros y [H _]. exact H.
Qed.

(** X18.  The lines of the tree come in strictly increasing order of their
    paths, the order in which the blocks are sorted: no entry has two lines,
    the line of a directory comes before the lines of what it holds, and
    these before the line of the next entry of its parent. *)
Theorem tree_lines_are_sorted (n : node) (path : Path) (depth : nat) (ls : list line) :
  wf_node n ->
  listing self path n depth = Ok ls ->
  StronglySorted Pathlib.le (map l_item ls)
  /\ NoDup (map l_item ls)
  /\ map l_item (List.filter (fun l => negb (l_is_dir l)) ls)
     = Pathlib.sorted (map l_item (List.filter (fun l => negb (l_is_dir l)) ls)).
Proof.
  intros Hwf Hls. pose proof (listing_sorted n Hwf path depth ls Hls) as H.
  split; [apply StronglySorted_lt_le; exact H|].
  split; [apply StronglySorted_lt_NoDup; exact H|].
  apply sorted_unique; [|reflexivity]. apply StronglySorted_Sorted.
  apply StronglySorted_lt_le in H. clear -H.
  induction ls as [|l ls IH]; [constructor|]. cbn [map] in H.
  apply StronglySorted_inv in H as [Hss Hall]. cbn [List.filter].
  destruct (negb (l_is_dir l)); [|apply IH; exact Hss].
  cbn [map]. constructor; [apply IH; exact Hss|].
  rewrite List.Forall_forall in *. intros x Hx. apply Hall.
  apply in_map_iff in Hx as (l' & <- & Hl'). apply filter_In in Hl' as [Hl' _].
  apply in_map. exact Hl'.
Qed.

End TreeInvariance.

Lemma tree_depends_on_names_only_witness :
  Scanner.generate_structure Example.plain Example.proj_path
    (FS.Dir true [("b.py", FS.File true "b"); ("a.py", FS.File true "a")]) 0
  = Scanner.generate_structure Example.plain Example.proj_path
      (FS.Dir true [("a.py", FS.File false ""); ("b.py", FS.File true "c")]) 0.
Proof.
  refine (proj1 (tree_depends_on_names_only Example.plain _ _ Example.proj_path 0 _ _)).
  - prove_wf.
  - apply (alike_dir true _ [("b.py", FS.File true "c"); ("a.py", FS.File false "")]).
    + repeat constructor.
    + apply perm_swap.
Defined.

(** ** Where the blocks come from *)

Section Blocks.

Import Pathlib FS Scanner.

Lemma enumerate_listed dp n recursive f :
  In f (enumerate dp n recursive) ->
  exists rel c, listed n rel c /\ f = dp ++ rel /\ (recursive = false -> length rel = 1).
Proof.
  unfold enumerate. destruct recursive.
  - intros Hf. apply rglob_listed in Hf as (rel & c & Hl & ->).
    exists rel, c. repeat split; [exact Hl | discriminate].
  - destruct n as [|[|] es]; try (intros []).
    cbn [glob_star]. intros Hf. apply In_children in Hf as (k & c & He & ->).
    exists [k], c. repeat split. apply listed_entry. exact He.
Qed.

(** X16.  Every block of the content stands for a regular file that the
    enumeration found below the root (at the top level when the scan is not
    recursive), that the filter includes, that can be read and holds UTF-8:
    its heading is the path relative to the root, its tag is the extension of
    the file, which is one of the allowed extensions, and its content is the
    text read from the file. *)
Theorem blocks_come_from_included_files
        (w : world) (self : CodeScanner) (dp : Path) (n : node) (recursive : bool)
        (b : block) :
  stat w dp = Some n ->
  wf_node n ->
  In b (blocks w self dp (enumerate dp n recursive)) ->
  exists data,
    listed n (b_path b) (File true data)
    /\ utf8_valid data = true
    /\ b_content b = universal_newlines data
    /\ b_tag b = extension (dp ++ b_path b)
    /\ b_tag b ∈ extensions self
    /\ should_include_file self (dp ++ b_path b) = true
    /\ (recursive = false -> length (b_path b) = 1).
Proof.
  intros Hs Hwf Hb.
  apply In_blocks in Hb as (f & Hf & Hread).
  apply In_code_files in Hf as (Hf & _ & Hi).
  apply enumerate_listed in Hf as (rel & c & Hl & -> & Hlen).
  apply read_block_Some in Hread as (Hrel & Htext & Htag).
  rewrite (relative_to_app dp rel (listed_relative _ _ _ Hwf Hl)) in Hrel.
  injection Hrel as Hrel. rewrite <- Hrel.
  unfold read_text in Htext.
  rewrite (stat_reach w dp n rel c Hs Hwf (listed_reach _ _ _ Hl)) in Htext.
  destruct c as [[|] data|]; try discriminate.
  destruct (utf8_valid data) eqn:Hu; [|discriminate]. injection Htext as Htext.
  exists data. repeat split; auto.
  rewrite Htag. apply should_include_file_true in Hi. tauto.
Qed.

Lemma blocks_come_from_included_files_witness :
  exists data,
    listed Example.proj ["a.py"] (File true data)
    /\ utf8_valid data = true
    /\ "x=1" = universal_newlines data
    /\ "py" = extension (Example.proj_path ++ ["a.py"])
    /\ "py" ∈ extensions Example.plain
    /\ should_include_file Example.plain (Example.proj_path ++ ["a.py"]) = true
    /\ (false = false -> length ["a.py"] = 1).
Proof.
  refine (blocks_come_from_included_files (Example.disk None) Example.plain
            Example.proj_path Example.proj false (Block ["a.py"] "py" "x=1") _ _ _).
  - reflexivity.
  - apply example_proj_wf.
  - vm_compute. tauto.
Defined.










End Blocks.

Lemma tree_lines_are_sorted_witness :
  exists ls,
    Scanner.listing Example.plain Example.proj_path Example.proj 0 = Ok ls
    /\ NoDup (map Scanner.l_item ls).
Proof.
  eexists. split; [vm_compute; reflexivity|].
  refine (proj1 (proj2 (tree_lines_are_sorted Example.plain Example.proj Example.proj_path 0 _
                          example_proj_wf _))).
  vm_compute. reflexivity.
Defined.

(** ** Reusing a scanner, and the names of the tree *)

Section Reuse.

Import Pathlib FS Scanner.

Lemma scan_directory_ignores_base_dir w self p directory recursive :
  returned (scan_directory w (set_base_dir self p) directory recursive)
  = returned (scan_directory w self directory recursive)
  /\ events (scan_directory w (set_base_dir self p) directory recursive)
     = events (scan_directory w self directory recursive)
  /\ (stat w (of_string directory) <> None ->
      after (scan_directory w (set_base_dir self p) directory recursive)
      = after (scan_directory w self directory recursive)).
Proof.
  unfold scan_directory. destruct (stat w (of_string directory)) as [n|].
  - change (set_base_dir (set_base_dir self p) (resolve w (of_string directory)))
      with (set_base_dir self (resolve w (of_string directory))).
    repeat split.
  - repeat split. intros H. contradiction.
Qed.

(** X19.  A scanner carries nothing from one scan to the next: the base
    directory, the only attribute a scan assigns, is assigned again before it
    is read.  A scan with a scanner that has scanned before, whatever the
    directory and the file system of the earlier scan and whether that scan
    returned or raised, returns or raises what it does with the scanner as it
    was before, after the same accesses to the file system. *)
Theorem a_scanner_can_be_reused
        (w w' : world) (self : CodeScanner) (directory directory' : string)
        (recursive recursive' : bool) :
  let used := after (scan_directory w self directory recursive) in
  returned (scan_directory w' used directory' recursive')
  = returned (scan_directory w' self directory' recursive')
  /\ events (scan_directory w' used directory' recursive')
     = events (scan_directory w' self directory' recursive')
  /\ (stat w' (of_string directory') <> None ->
      after (scan_directory w' used directory' recursive')
      = after (scan_directory w' self directory' recursive')).
Proof.
  intros used.
  assert (Hused : used = self
                  \/ used = set_base_dir self (resolve w (of_string directory))).
  { unfold used, scan_directory. destruct (stat w (of_string directory)) as [n|];
      [|left; reflexivity].
    right. cbv zeta. destruct (structure_section _ _ n); reflexivity. }
  destruct Hused as [->| ->]; [repeat split|].
  apply scan_directory_ignores_base_dir.
Qed.

Lemma replace_lacks c r s : lacks c s -> Str.replace c r s = s.
Proof.
  induction s as [|a s IH]; [reflexivity|]. intros [Ha Hs]. cbn [Str.replace].
  destruct (Ascii.eqb_spec a c); [contradiction|]. rewrite IH by exact Hs. reflexivity.
Qed.

Lemma replace_escapes c s :
  c <> "\"%char ->
  forall after_backslash, escaped c after_backslash (Str.replace c (String "\" (String c "")) s).
Proof.
  intros Hc. induction s as [|a s IH]; intros ab; [exact I|]. cbn [Str.replace].
  destruct (Ascii.eqb_spec a c) as [->|Hac].
  - cbn [String.append escaped]. split; [intros E; symmetry in E; contradiction|].
    split; [intros _; apply Ascii.eqb_refl|]. apply IH.
  - cbn [escaped]. split; [intros E; contradiction | apply IH].
Qed.

Lemma replace_keeps_escaped c d s :
  c <> "\"%char ->
  forall after_backslash,
    escaped c after_backslash s ->
    escaped c after_backslash (Str.replace d (String "\" (String d "")) s).
Proof.
  intros Hc. induction s as [|a s IH]; intros ab; [trivial|].
  cbn [escaped Str.replace]. intros [Ha Hs].
  destruct (Ascii.eqb_spec a d) as [->|Had].
  - cbn [String.append escaped]. split; [intros E; symmetry in E; contradiction|].
    split; [intros _; apply Ascii.eqb_refl|]. apply IH. exact Hs.
  - cbn [escaped]. split; [exact Ha | apply IH; exact Hs].
Qed.

(** X20.  In the name that the tree prints, every asterisk and every
    underscore comes right after a backslash; a name that holds neither is
    printed as it is. *)
Theorem safe_name_escapes (item : Path) :
  escaped "*" false (safe_name item)
  /\ escaped "_" false (safe_name item)
  /\ (lacks "*" (name item) -> lacks "_" (name item) -> safe_name item = name item).
Proof.
  unfold safe_name. split; [|split].
  - apply (replace_keeps_escaped "*" "_"); [discriminate|].
    apply (replace_escapes "*"). discriminate.
  - apply (replace_escapes "_"). discriminate.
  - intros H1 H2. rewrite (replace_lacks "*" _ _ H1). apply replace_lacks. exact H2.
Qed.

End Reuse.
